(** * Campaign pilot: the bulk-send edge function

    A shallow embedding of the [send-campaign-emails] edge function
    ([handler] and [sendEmailsInBackground]) together with the fragment of
    JavaScript string and [RegExp] behaviour that its placeholder
    substitution relies on.

    JavaScript strings are sequences of code units; they are embedded as
    [list ascii].  [undefined] and [null] are embedded as [None]. *)

From Stdlib Require Import Ascii String List Arith Bool Lia.
Import ListNotations.

(* ================================================================== *)
(** * JavaScript strings *)
(* ================================================================== *)

Module JS.

Definition str := list ascii.

(** A string literal of the source, ['abc'], is written [js "abc"]. *)
Definition lit (s : string) : str := list_ascii_of_string s.

Definition ascii_eqb (a b : ascii) : bool := Ascii.eqb a b.

Fixpoint str_eqb (a b : str) : bool :=
  match a, b with
  | [], [] => true
  | x :: a', y :: b' => ascii_eqb x y && str_eqb a' b'
  | _, _ => false
  end.

(** [startsWith p s]: the code units of [p] are found at the head of [s]. *)
Fixpoint startsWith (p s : str) : bool :=
  match p, s with
  | [], _ => true
  | x :: p', y :: s' => ascii_eqb x y && startsWith p' s'
  | _ :: _, [] => false
  end.

(** [includes p s]: [p] occurs somewhere in [s]. *)
Fixpoint includes (p s : str) : bool :=
  startsWith p s ||
  match s with
  | [] => false
  | _ :: s' => includes p s'
  end.

(** Truthiness of a value that is a string or [undefined]:
    [undefined] and the empty string are falsy. *)
Definition truthy (v : option str) : bool :=
  match v with
  | Some (_ :: _) => true
  | _ => false
  end.

(** [a || b] *)
Definition or_else (a b : option str) : option str :=
  if truthy a then a else b.

(** [a || d] where [d] is a string literal. *)
Definition or_str (a : option str) (d : str) : str :=
  match a with
  | Some (c :: s) => c :: s
  | _ => d
  end.

(** [s.replace(p, '')] with a _string_ pattern [p]: only the first
    occurrence of [p] is removed. *)
Fixpoint remove_first (p s : str) : str :=
  if startsWith p s then skipn (length p) s
  else match s with
       | [] => []
       | c :: s' => c :: remove_first p s'
       end.

(** ** Objects used as string-keyed records

    [Record<string,string>] values and parsed CSV rows are embedded as
    association lists in [Object.entries] order; a property read returns
    the first binding of the key, [None] standing for [undefined].  The
    values are strings, as the CSV parser produces them, and the keys are
    taken not to name a property inherited from [Object.prototype]. *)

Definition obj := list (str * str).

Fixpoint get (o : obj) (k : str) : option str :=
  match o with
  | [] => None
  | (k', v) :: o' => if str_eqb k' k then Some v else get o' k
  end.

End JS.

Definition js : string -> JS.str := JS.lit.

(* ================================================================== *)
(** * The fragment of [RegExp] the renderer uses *)
(* ================================================================== *)

Module RegExp.
Import JS.

(** The characters of the class [[.*+?^${}()|[\]\\]]; these are exactly the
    [SyntaxCharacter]s of the pattern grammar. *)
Definition syntax_chars : str := (js ".*+?^${}()|[]\").

Definition is_syntax_char (c : ascii) : bool :=
  existsb (ascii_eqb c) syntax_chars.

Definition backslash : ascii := "\"%char.
Definition dollar : ascii := "$"%char.

(** [placeholder.replace(/[.*+?^${}()|[\]\\]/g, '\\$&')]: every character
    of the class is prefixed with a backslash. *)
Fixpoint escape (placeholder : str) : str :=
  match placeholder with
  | [] => []
  | c :: rest =>
      if is_syntax_char c then backslash :: c :: escape rest
      else c :: escape rest
  end.

(** [new RegExp(source, 'g')] for sources made of pattern characters and
    identity escapes only.  The result is the sequence of code units the
    compiled pattern matches; [None] stands for every source that uses an
    operator of the pattern language (or does not parse), which the
    renderer never builds (see [compile_escape]). *)
Fixpoint compile (source : str) : option str :=
  match source with
  | [] => Some []
  | c :: rest =>
      if ascii_eqb c backslash then
        match rest with
        | e :: rest' =>
            if is_syntax_char e
            then option_map (cons e) (compile rest')
            else None
        | [] => None
        end
      else if is_syntax_char c then None
      else option_map (cons c) (compile rest)
  end.

(** [GetSubstitution(matched, str, position, captures = [],
    namedCaptures = undefined, replacement)].  With no capture groups the
    only active forms are [$$], [$&], [$`] and [$']; [$n] and [$<] stand
    for themselves. *)
Fixpoint getSubstitution (matched before after replacement : str) : str :=
  match replacement with
  | [] => []
  | c :: rest =>
      if ascii_eqb c dollar then
        match rest with
        | d :: rest' =>
            if ascii_eqb d dollar then
              dollar :: getSubstitution matched before after rest'
            else if ascii_eqb d "&"%char then
              matched ++ getSubstitution matched before after rest'
            else if ascii_eqb d "`"%char then
              before ++ getSubstitution matched before after rest'
            else if ascii_eqb d "'"%char then
              after ++ getSubstitution matched before after rest'
            else c :: getSubstitution matched before after rest
        | [] => [c]
        end
      else c :: getSubstitution matched before after rest
  end.

(** [text.replace(regex, value)] for a global regex that matches the code
    units [p].  Matches are searched from left to right; after a match the
    search resumes at its end, one position further when the match is
    empty.  [before] is the part of [text] already scanned, [skip] counts
    the code units of the current match still to be passed over. *)
Fixpoint replace_scan (p value : str) (before : str) (skip : nat)
         (rest : str) : str :=
  match skip with
  | S k =>
      match rest with
      | [] => []
      | c :: rest' => replace_scan p value (before ++ [c]) k rest'
      end
  | 0 =>
      if startsWith p rest then
        getSubstitution p before (skipn (length p) rest) value ++
        match rest with
        | [] => []
        | c :: rest' =>
            match p with
            | [] => c :: replace_scan p value (before ++ [c]) 0 rest'
            | _ :: p' =>
                replace_scan p value (before ++ [c]) (length p') rest'
            end
        end
      else
        match rest with
        | [] => []
        | c :: rest' => c :: replace_scan p value (before ++ [c]) 0 rest'
        end
  end.

Definition replace_all (p : str) (text value : str) : str :=
  replace_scan p value [] 0 text.

(** [text.replace(new RegExp(escape(placeholder), 'g'), value)] *)
Definition replace_placeholder (placeholder text value : str) : str :=
  match compile (escape placeholder) with
  | Some p => replace_all p text value
  | None => text
  end.

End RegExp.

Import JS.

(* ================================================================== *)
(** * The persistent store and the other collaborators *)
(* ================================================================== *)

Inductive campaign_status := draft | active | completed | paused.
Inductive recipient_status := pending | sent | failed.

(** Timestamps ([new Date().toISOString()]) are readings of a clock. *)
Definition timestamp := nat.

(** A row of [campaigns]. *)
Record campaign_row := {
  c_id : str;
  c_status : campaign_status;
  total_recipients : nat;
  sent_count : nat;
  failed_count : nat;
  completed_at : option timestamp
}.

(** A row of [recipients]; [row_id] is generated by the database. *)
Record recipient_row := {
  row_id : str;
  row_campaign_id : str;
  row_user_id : str;
  row_email : option str;
  row_status : recipient_status;
  row_data : obj;
  error_message : option str;
  sent_at : option timestamp
}.

(** The object [handler] builds for each CSV row and hands to
    [sendEmailsInBackground].  [id] is the property read [recipient.id]:
    [None] when the object has no such property. *)
Record recipient := {
  campaign_id : str;
  user_id : str;
  email : option str;
  status : recipient_status;
  data : obj;
  id : option str
}.

Record smtp_config := {
  host : str;
  port : nat;
  senderEmail : str;
  senderName : str;
  appPassword : str
}.

Record template := { subject : str; body : str }.

(** The body of the [send-email] invocation. *)
Record email_data := {
  to : option str;
  e_subject : str;
  html : str;
  smtp : option smtp_config
}.

(** The fields an [update] call sets; [None] leaves the column alone. *)
Record campaign_patch := {
  set_status : option campaign_status;
  set_total_recipients : option nat;
  set_sent_count : option nat;
  set_failed_count : option nat;
  set_completed_at : option (option timestamp)
}.

Record recipient_patch := {
  set_row_status : option recipient_status;
  set_sent_at : option timestamp;
  set_error_message : option str
}.

Record world := {
  campaigns : list campaign_row;
  recipients : list recipient_row;
  clock : timestamp
}.

(** What the function does to the outside, in order. *)
Inductive event :=
| InsertRecipients (rows : list recipient)
| UpdateCampaign (campaignId : str) (patch : campaign_patch)
| UpdateRecipient (eq_id : option str) (patch : recipient_patch)
| InvokeSendEmail (body : email_data)
| Delay (ms : nat).

(** The collaborators whose answers the function reacts to. *)
Record env := {
  (** [supabase.auth.getUser(token)]: the user's id, or [None] on
      [authError || !user] *)
  getUser : str -> option str;
  (** does the [insert] into [recipients] report an error *)
  recipientsError : bool;
  (** does the [update] of [campaigns] in [handler] report an error *)
  campaignUpdateError : bool;
  (** [supabase.functions.invoke('send-email', ...)] for the n-th recipient
      of the run: the error's message, or [None] on success *)
  invoke_send_email : nat -> email_data -> option str;
  (** the id the database gives to the n-th row of [recipients] *)
  new_row_id : nat -> str
}.

(** ** Store operations *)

Definition patch_campaign (p : campaign_patch) (c : campaign_row) : campaign_row :=
  {| c_id := c_id c;
     c_status := match set_status p with Some s => s | None => c_status c end;
     total_recipients :=
       match set_total_recipients p with Some n => n | None => total_recipients c end;
     sent_count := match set_sent_count p with Some n => n | None => sent_count c end;
     failed_count :=
       match set_failed_count p with Some n => n | None => failed_count c end;
     completed_at :=
       match set_completed_at p with Some t => t | None => completed_at c end |}.

Definition patch_recipient (p : recipient_patch) (r : recipient_row) : recipient_row :=
  {| row_id := row_id r;
     row_campaign_id := row_campaign_id r;
     row_user_id := row_user_id r;
     row_email := row_email r;
     row_status :=
       match set_row_status p with Some s => s | None => row_status r end;
     row_data := row_data r;
     error_message :=
       match set_error_message p with Some m => Some m | None => error_message r end;
     sent_at := match set_sent_at p with Some t => Some t | None => sent_at r end |}.

(** [.update(patch).eq('id', campaignId)] on [campaigns] *)
Definition store_update_campaign (campaignId : str) (p : campaign_patch)
           (w : world) : world :=
  {| campaigns :=
       map (fun c => if str_eqb (c_id c) campaignId then patch_campaign p c else c)
           (campaigns w);
     recipients := recipients w;
     clock := clock w |}.

(** [.update(patch).eq('id', v)] on [recipients]: the rows whose id is [v]
    are patched.  When [v] is [undefined] no row is selected: every row has
    an id. *)
Definition store_update_recipient (v : option str) (p : recipient_patch)
           (w : world) : world :=
  {| campaigns := campaigns w;
     recipients :=
       match v with
       | Some i =>
           map (fun r => if str_eqb (row_id r) i then patch_recipient p r else r)
               (recipients w)
       | None => recipients w
       end;
     clock := clock w |}.

Fixpoint fresh_rows (new_id : nat -> str) (n : nat) (rs : list recipient)
  : list recipient_row :=
  match rs with
  | [] => []
  | r :: rs' =>
      {| row_id := new_id n;
         row_campaign_id := campaign_id r;
         row_user_id := user_id r;
         row_email := email r;
         row_status := status r;
         row_data := data r;
         error_message := None;
         sent_at := None |} :: fresh_rows new_id (S n) rs'
  end.

(** [.insert(rows)] on [recipients] *)
Definition store_insert_recipients (new_id : nat -> str) (rs : list recipient)
           (w : world) : world :=
  {| campaigns := campaigns w;
     recipients := recipients w ++ fresh_rows new_id (length (recipients w)) rs;
     clock := clock w |}.

Definition advance_clock (ms : nat) (w : world) : world :=
  {| campaigns := campaigns w; recipients := recipients w; clock := clock w + ms |}.

(* ================================================================== *)
(** * Effects: a state and trace monad over the world *)
(* ================================================================== *)

Definition Eff (A : Type) : Type := world -> A * world * list event.

Definition ret {A} (a : A) : Eff A := fun w => (a, w, []).

Definition bind {A B} (m : Eff A) (k : A -> Eff B) : Eff B :=
  fun w =>
    let '(a, w1, t1) := m w in
    let '(b, w2, t2) := k a w1 in
    (b, w2, t1 ++ t2).

Notation "x <- m ;; k" := (bind m (fun x => k))
  (at level 61, m at next level, right associativity).
Notation "m ;; k" := (bind m (fun _ => k))
  (at level 61, right associativity).

Definition result {A} (x : A * world * list event) : A := fst (fst x).
Definition final {A} (x : A * world * list event) : world := snd (fst x).
Definition trace {A} (x : A * world * list event) : list event := snd x.

Definition now : Eff timestamp := fun w => (clock w, w, []).

Definition setTimeout (ms : nat) : Eff unit :=
  fun w => (tt, advance_clock ms w, [Delay ms]).

Definition update_campaign (campaignId : str) (p : campaign_patch) : Eff unit :=
  fun w => (tt, store_update_campaign campaignId p w, [UpdateCampaign campaignId p]).

Definition update_recipient (v : option str) (p : recipient_patch) : Eff unit :=
  fun w => (tt, store_update_recipient v p w, [UpdateRecipient v p]).

Definition send_email (e : env) (n : nat) (d : email_data) : Eff (option str) :=
  fun w => (invoke_send_email e n d, w, [InvokeSendEmail d]).

(* ================================================================== *)
(** * Placeholder substitution *)
(* ================================================================== *)

(** The callback of [Object.entries(placeholderMappings).forEach]: both
    [personalizedSubject] and [personalizedBody] are reassigned. *)
Definition substitute (recipient_data : obj) (personalized : str * str)
           (entry : str * str) : str * str :=
  let '(placeholder, csvColumn) := entry in
  let value := or_str (get recipient_data csvColumn) [] in
  (RegExp.replace_placeholder placeholder (fst personalized) value,
   RegExp.replace_placeholder placeholder (snd personalized) value).

(** The rendering step at the head of the loop body: the pair
    [(personalizedSubject, personalizedBody)]. *)
Definition personalize (t : template) (placeholderMappings : obj)
           (recipient_data : obj) : str * str :=
  fold_left (substitute recipient_data) placeholderMappings (subject t, body t).

(* ================================================================== *)
(** * [sendEmailsInBackground] *)
(* ================================================================== *)

Definition mark_sent (t : timestamp) : recipient_patch :=
  {| set_row_status := Some sent; set_sent_at := Some t; set_error_message := None |}.

Definition mark_failed (message : str) : recipient_patch :=
  {| set_row_status := Some failed; set_sent_at := None;
     set_error_message := Some message |}.

Definition progress (sentCount failedCount : nat) : campaign_patch :=
  {| set_status := None; set_total_recipients := None;
     set_sent_count := Some sentCount; set_failed_count := Some failedCount;
     set_completed_at := None |}.

(** The object [emailData] built for one recipient. *)
Definition compose_email (t : template) (placeholderMappings : obj)
           (smtpConfig : option smtp_config) (r : recipient) : email_data :=
  let '(personalizedSubject, personalizedBody) :=
    personalize t placeholderMappings (data r) in
  {| to := email r; e_subject := personalizedSubject;
     html := personalizedBody; smtp := smtpConfig |}.

(** The [try]/[catch] of the loop body for the [n]-th recipient.  The
    counters are the pair [(sentCount, failedCount)]. *)
Definition attempt (e : env) (t : template) (placeholderMappings : obj)
           (smtpConfig : option smtp_config) (n : nat) (r : recipient)
           (counts : nat * nat) : Eff (nat * nat) :=
  let '(sentCount, failedCount) := counts in
  emailError <-
    send_email e n (compose_email t placeholderMappings smtpConfig r) ;;
  match emailError with
  | None =>
      at_ <- now ;;
      update_recipient (id r) (mark_sent at_) ;;
      setTimeout 1000 ;;
      ret (sentCount + 1, failedCount)
  | Some message =>
      update_recipient (id r) (mark_failed message) ;;
      ret (sentCount, failedCount + 1)
  end.

(** "Update campaign progress every 10 emails" *)
Definition checkpoint (campaignId : str) (counts : nat * nat) : Eff unit :=
  let '(sentCount, failedCount) := counts in
  if (sentCount + failedCount) mod 10 =? 0
  then update_campaign campaignId (progress sentCount failedCount)
  else ret tt.

(** One turn of the loop: the attempt, then the progress update. *)
Definition loop_body (e : env) (campaignId : str) (t : template)
           (placeholderMappings : obj) (smtpConfig : option smtp_config)
           (n : nat) (r : recipient) (counts : nat * nat) : Eff (nat * nat) :=
  counts' <- attempt e t placeholderMappings smtpConfig n r counts ;;
  checkpoint campaignId counts' ;;
  ret counts'.

(** [for (const recipient of recipients)], [n] being the position of the
    head of [rs] in [recipients]. *)
Fixpoint send_loop (e : env) (campaignId : str) (t : template)
         (placeholderMappings : obj) (smtpConfig : option smtp_config)
         (n : nat) (rs : list recipient) (counts : nat * nat)
  : Eff (nat * nat) :=
  match rs with
  | [] => ret counts
  | r :: rs' =>
      counts' <- loop_body e campaignId t placeholderMappings smtpConfig n r counts ;;
      send_loop e campaignId t placeholderMappings smtpConfig (S n) rs' counts'
  end.

Definition final_update (isCompleted : bool) (sentCount failedCount : nat)
           (at_ : timestamp) : campaign_patch :=
  {| set_status := Some (if isCompleted then completed else paused);
     set_total_recipients := None;
     set_sent_count := Some sentCount;
     set_failed_count := Some failedCount;
     set_completed_at := Some (if isCompleted then Some at_ else None) |}.

(** "Final campaign update": the statements after the loop, for the
    counters the loop has left and the number of recipients
    ([recipients.length]). *)
Definition final_campaign_update (campaignId : str) (recipients_length : nat)
           (counts : nat * nat) : Eff unit :=
  let '(sentCount, failedCount) := counts in
  let isCompleted := sentCount + failedCount =? recipients_length in
  at_ <- now ;;
  update_campaign campaignId (final_update isCompleted sentCount failedCount at_).

Definition sendEmailsInBackground (e : env) (campaignId : str) (t : template)
           (rs : list recipient) (placeholderMappings : obj)
           (smtpConfig : option smtp_config) : Eff unit :=
  counts <- send_loop e campaignId t placeholderMappings smtpConfig 0 rs (0, 0) ;;
  final_campaign_update campaignId (length rs) counts.

(* ================================================================== *)
(** * [handler] *)
(* ================================================================== *)

Record campaign_data := {
  cd_template : template;
  csvData : list obj;
  placeholderMappings : obj;
  smtpConfig : option smtp_config
}.

Record request := {
  is_options : bool;                 (** [req.method === 'OPTIONS'] *)
  authorization : option str;        (** [req.headers.get('authorization')] *)
  campaignId : str;
  campaignData : campaign_data
}.

Inductive response_body :=
| no_body
| started (campaignId : str) (totalRecipients : nat)
| error (message : str).

Record response := { http_status : nat; payload : response_body }.

Definition failure (message : string) : response :=
  {| http_status := 500; payload := error (js message) |}.

(** [row[placeholderMappings['{{email}}'] || 'email'] || row.email] *)
Definition resolve_email (mappings : obj) (row : obj) : option str :=
  or_else (get row (or_str (get mappings (js "{{email}}")) (js "email")))
          (get row (js "email")).

Definition new_recipient (campaignId user : str) (mappings : obj) (row : obj)
  : recipient :=
  {| campaign_id := campaignId;
     user_id := user;
     email := resolve_email mappings row;
     status := pending;
     data := row;
     id := None |}.

Definition activate (total : nat) : campaign_patch :=
  {| set_status := Some active; set_total_recipients := Some total;
     set_sent_count := Some 0; set_failed_count := Some 0;
     set_completed_at := None |}.

(** [supabase.from('recipients').insert(recipients)]: nothing is stored when
    the store reports an error. *)
Definition insert_recipients (e : env) (rs : list recipient) : Eff bool :=
  fun w =>
    (recipientsError e,
     if recipientsError e then w else store_insert_recipients (new_row_id e) rs w,
     [InsertRecipients rs]).

(** The checked [update] of [campaigns] in [handler]. *)
Definition activate_campaign (e : env) (campaignId : str) (total : nat)
  : Eff bool :=
  fun w =>
    (campaignUpdateError e,
     if campaignUpdateError e then w
     else store_update_campaign campaignId (activate total) w,
     [UpdateCampaign campaignId (activate total)]).

(** The handler answers with a response and, when the launch is accepted,
    hands the background run to [EdgeRuntime.waitUntil]. *)
Definition handler (e : env) (req : request)
  : Eff (response * option (Eff unit)) :=
  if is_options req then ret ({| http_status := 200; payload := no_body |}, None)
  else
    let cd := campaignData req in
    let token := option_map (remove_first (js "Bearer ")) (authorization req) in
    if negb (truthy token) then ret (failure "Authorization token required", None)
    else
      match getUser e (or_str token []) with
      | None => ret (failure "Invalid authorization token", None)
      | Some user =>
          let rs :=
            map (new_recipient (campaignId req) user (placeholderMappings cd))
                (csvData cd) in
          recipientsError <- insert_recipients e rs ;;
          if recipientsError : bool
          then ret (failure "Failed to insert recipients", None)
          else
            campaignUpdateError <-
              activate_campaign e (campaignId req) (length (csvData cd)) ;;
            if campaignUpdateError : bool
            then ret (failure "Failed to update campaign", None)
            else
              ret ({| http_status := 200;
                      payload := started (campaignId req) (length (csvData cd)) |},
                   Some (sendEmailsInBackground e (campaignId req) (cd_template cd)
                           rs (placeholderMappings cd) (smtpConfig cd)))
      end.

(** A launch: the request is handled, then the background run, if one was
    started, goes to its end. *)
Definition launch (e : env) (req : request) : Eff response :=
  r <- handler e req ;;
  match snd r with
  | Some background => background ;; ret (fst r)
  | None => ret (fst r)
  end.


(* ================================================================== *)
(** * Vocabulary of the statements *)
(* ================================================================== *)

(** The campaign rows of [w'] have the ids and totals of those of [w]. *)
Definition same_totals (w w' : world) : Prop :=
  map (fun c => (c_id c, total_recipients c)) (campaigns w') =
  map (fun c => (c_id c, total_recipients c)) (campaigns w).

(** The state reached when the first [k] recipients have been attempted:
    by [send_loop_app] the run over [rs] passes through it. *)
Definition after_attempts (e : env) (cid : str) (t : template) (m : obj)
           (cfg : option smtp_config) (rs : list recipient) (w : world)
           (k : nat) : (nat * nat) * world * list event :=
  send_loop e cid t m cfg 0 (firstn k rs) (0, 0) w.

(** The mail-send calls of a trace, in order. *)
Fixpoint mail_sends (tr : list event) : list email_data :=
  match tr with
  | [] => []
  | InvokeSendEmail d :: tr' => d :: mail_sends tr'
  | _ :: tr' => mail_sends tr'
  end.

(** The campaign writes of a trace, in order. *)
Fixpoint campaign_writes (tr : list event) : list campaign_patch :=
  match tr with
  | [] => []
  | UpdateCampaign _ p :: tr' => p :: campaign_writes tr'
  | _ :: tr' => campaign_writes tr'
  end.

Definition is_delay (ev : event) : bool :=
  match ev with Delay _ => true | _ => false end.




(* ================================================================== *)
(** * Vocabulary of the rendering statements *)
(* ================================================================== *)

(** The position of the leftmost occurrence of [p] in [s]. *)
Fixpoint find (p s : str) : option nat :=
  if startsWith p s then Some 0
  else match s with
       | [] => None
       | _ :: s' => option_map S (find p s')
       end.

(** Literal replacement of every occurrence, in the words of the
    specification: the leftmost occurrence of the token is replaced by the
    value as it is, and the text that follows the occurrence is treated the
    same way; a text without occurrence is left as it is. *)
Inductive literal_replaced (p v : str) : str -> str -> Prop :=
| literal_none s :
    find p s = None -> literal_replaced p v s s
| literal_next s i out :
    find p s = Some i ->
    literal_replaced p v (skipn (i + length p) s) out ->
    literal_replaced p v s (firstn i s ++ v ++ out).

(** The mapping entries applied one after the other, each as a literal
    replacement by the recipient's value for the mapped column (the empty
    string when the recipient has none). *)
Inductive rendered (recipient_data : obj) : obj -> str -> str -> Prop :=
| rendered_done s : rendered recipient_data [] s s
| rendered_entry placeholder csvColumn entries s s1 out :
    literal_replaced placeholder (or_str (get recipient_data csvColumn) []) s s1 ->
    rendered recipient_data entries s1 out ->
    rendered recipient_data ((placeholder, csvColumn) :: entries) s out.



(** A placeholder token [{{name}}], the name being free of braces. *)
Definition token (name : str) : str := js "{{" ++ name ++ js "}}".





(** "The value is inserted as a literal string and is not substituted
    further", at a subject that consists of one mapped token and contains
    no other mapped placeholder: the rendered subject is the recipient's
    value. *)
Definition inserts_values_verbatim : Prop :=
  forall t mappings recipient_data col value,
    get mappings (subject t) = Some col ->
    get recipient_data col = Some value ->
    subject t <> [] -> value <> [] ->
    (forall k c, In (k, c) mappings -> k <> subject t ->
                 includes k (subject t) = false) ->
    fst (personalize t mappings recipient_data) = value.

(** The marks a trace puts on recipients: the id selected, the status and
    the error message written. *)
Fixpoint recipient_marks (tr : list event)
  : list (option str * option recipient_status * option str) :=
  match tr with
  | [] => []
  | UpdateRecipient v p :: tr' =>
      (v, set_row_status p, set_error_message p) :: recipient_marks tr'
  | _ :: tr' => recipient_marks tr'
  end.

(** The mark the loop puts on the recipient at position [n]. *)
Definition mark_of (e : env) (t : template) (m : obj) (cfg : option smtp_config)
           (n : nat) (r : recipient)
  : option str * option recipient_status * option str :=
  match invoke_send_email e n (compose_email t m cfg r) with
  | None => (id r, Some sent, None)
  | Some message => (id r, Some failed, Some message)
  end.

Fixpoint marks_from (e : env) (t : template) (m : obj) (cfg : option smtp_config)
         (n : nat) (rs : list recipient)
  : list (option str * option recipient_status * option str) :=
  match rs with
  | [] => []
  | r :: rs' => mark_of e t m cfg n r :: marks_from e t m cfg (S n) rs'
  end.

(* ================================================================== *)
(** * Sample data *)
(* ================================================================== *)

Module Sample.

(** A store that accepts every write, an auth service that knows one
    token, and a mail sender given by [mailer]. *)
Definition service (mailer : nat -> email_data -> option str) : env :=
  {| getUser := fun token => if str_eqb token (js "tok") then Some (js "u1") else None;
     recipientsError := false;
     campaignUpdateError := false;
     invoke_send_email := mailer;
     new_row_id := fun n => js "row-" ++ repeat "i"%char n |}.

Definition always_ok : nat -> email_data -> option str := fun _ _ => None.

Definition always_fail : nat -> email_data -> option str :=
  fun _ _ => Some (js "boom").

(** The send for the recipient at position [k] fails, the others succeed. *)
Definition fail_at (k : nat) : nat -> email_data -> option str :=
  fun n _ => if n =? k then Some (js "boom") else None.

Definition draft_campaign : campaign_row :=
  {| c_id := js "c1"; c_status := draft; total_recipients := 0;
     sent_count := 0; failed_count := 0; completed_at := None |}.

Definition w0 : world :=
  {| campaigns := [draft_campaign]; recipients := []; clock := 0 |}.

Definition greeting : template :=
  {| subject := js "Hi {{name}}"; body := js "Dear {{name}}, welcome." |}.

Definition mappings : obj := [(js "{{name}}", js "firstName")].

Definition rows : list obj :=
  [ [(js "email", js "ana@x.org"); (js "firstName", js "Ana")];
    [(js "email", js "bob@x.org"); (js "firstName", js "Bob")];
    [(js "email", js "eve@x.org"); (js "firstName", js "Eve")] ].

Definition sender : smtp_config :=
  {| host := js "smtp.x.org"; port := 587; senderEmail := js "me@x.org";
     senderName := js "Me"; appPassword := js "secret" |}.

Definition request_with (csv : list obj) (cfg : option smtp_config) : request :=
  {| is_options := false;
     authorization := Some (js "Bearer tok");
     campaignId := js "c1";
     campaignData :=
       {| cd_template := greeting; csvData := csv;
          placeholderMappings := mappings; smtpConfig := cfg |} |}.

(** The recipients [handler] builds from [rows]. *)
Definition three : list recipient :=
  map (new_recipient (js "c1") (js "u1") mappings) rows.

Definition many (n : nat) : list recipient :=
  repeat (new_recipient (js "c1") (js "u1") mappings
            [(js "email", js "ana@x.org"); (js "firstName", js "Ana")]) n.

End Sample.

(* ================================================================== *)
(** * Vocabulary of the further statements *)
(* ================================================================== *)

(** The answers of the mail sender to the sends of a run, in order. *)
Fixpoint answers (e : env) (t : template) (m : obj) (cfg : option smtp_config)
         (n : nat) (rs : list recipient) : list (option str) :=
  match rs with
  | [] => []
  | r :: rs' =>
      invoke_send_email e n (compose_email t m cfg r) ::
      answers e t m cfg (S n) rs'
  end.

Definition succeeded (a : option str) : bool :=
  match a with None => true | Some _ => false end.

(** The token read from the [authorization] header. *)
Definition bearer_token (req : request) : option str :=
  option_map (remove_first (js "Bearer ")) (authorization req).

(** Text made of code units below 128 only.  For such text an element of
    the list is one code unit of the JavaScript string; a character beyond
    that range takes several elements (see [utf8]) and is one or two code
    units of the string. *)
Definition is_ascii (c : ascii) : bool := nat_of_ascii c <? 128.

Definition ascii_text (s : str) : bool := forallb is_ascii s.

(** The campaign rows that do not belong to campaign [cid]. *)
Definition other_campaigns (cid : str) (w : world) : list campaign_row :=
  filter (fun c => negb (str_eqb (c_id c) cid)) (campaigns w).

(* ================================================================== *)
(** * The [send-email] function (the variant that sends through Resend) *)
(* ================================================================== *)

(** The argument of [resend.emails.send]. *)
Record resend_email := {
  mail_from : str;
  mail_to : list (option str);
  mail_subject : str;
  mail_html : str
}.

(** The outcome of [await resend.emails.send(...)]: a response with data,
    a response with an error, or an exception. *)
Inductive resend_answer :=
| resend_data (message_id : option str)
| resend_error (message : str)
| resend_throws (message : str).

Record mail_service := {
  (** [Deno.env.get('RESEND_API_KEY')] *)
  RESEND_API_KEY : option str;
  (** the message of the exception [new Resend(key)] throws, if it throws *)
  resend_constructor : option str;
  resend_send : resend_email -> resend_answer;
  (** the message of the [TypeError] raised by reading a property of
      [undefined] or [null] *)
  type_error : str
}.

Inductive mail_payload :=
| mail_no_body
| mail_sent (messageId : option str)
| mail_error (message : str).

Record mail_response := { mail_status : nat; mail_body : mail_payload }.

(** [`${smtp.senderName} <${smtp.senderEmail}>`] *)
Definition sender_header (cfg : smtp_config) : str :=
  senderName cfg ++ js " <" ++ senderEmail cfg ++ js ">".

(** The handler of [send-email], applied to the parsed body of the request;
    it answers with a response, and the second component lists the calls
    of [resend.emails.send] it made. *)
Definition send_email_handler (ms : mail_service) (options : bool)
           (d : email_data) : mail_response * list resend_email :=
  if options then ({| mail_status := 200; mail_body := mail_no_body |}, [])
  else
    match resend_constructor ms with
    | Some message => ({| mail_status := 500; mail_body := mail_error message |}, [])
    | None =>
        if negb (truthy (RESEND_API_KEY ms)) then
          ({| mail_status := 500;
              mail_body := mail_error (js "RESEND_API_KEY is not configured") |}, [])
        else
          match smtp d with
          | None =>
              ({| mail_status := 500; mail_body := mail_error (type_error ms) |}, [])
          | Some cfg =>
              let mail :=
                {| mail_from := sender_header cfg;
                   mail_to := [to d];
                   mail_subject := e_subject d;
                   mail_html := html d |} in
              match resend_send ms mail with
              | resend_throws message =>
                  ({| mail_status := 500; mail_body := mail_error message |}, [mail])
              | resend_error message =>
                  ({| mail_status := 500;
                      mail_body :=
                        mail_error (js "Failed to send email: " ++ message) |},
                   [mail])
              | resend_data message_id =>
                  ({| mail_status := 200; mail_body := mail_sent message_id |},
                   [mail])
              end
          end
    end.

(** [supabase.functions.invoke('send-email', { body })] against this
    handler: the [error] of the result, which is set, with the message
    [http_error] of the client library, when the status is not 2xx. *)
Definition invoke_send_email_function (ms : mail_service) (http_error : str)
           (d : email_data) : option str :=
  let st := mail_status (fst (send_email_handler ms false d)) in
  if (200 <=? st) && (st <=? 299) then None else Some http_error.

(** The collaborators [e] with [send-email] as the mail sender. *)
Definition with_send_email (ms : mail_service) (http_error : str) (e : env) : env :=
  {| getUser := getUser e;
     recipientsError := recipientsError e;
     campaignUpdateError := campaignUpdateError e;
     invoke_send_email := fun _ d => invoke_send_email_function ms http_error d;
     new_row_id := new_row_id e |}.

(* ================================================================== *)
(** * The [send-test-email] function *)
(* ================================================================== *)

Definition dquote : str := [ascii_of_nat 34].
Definition newline : str := [ascii_of_nat 10].

(** A character outside ASCII, written as its UTF-8 bytes. *)
Definition utf8 (bytes : list nat) : str := map ascii_of_nat bytes.

(** The pieces of the template literal of [emailData.html], between its
    interpolations. *)
Definition test_html_head : str :=
  newline ++
  js "        <div style=" ++ dquote ++ js "font-family: Arial, sans-serif; max-width: 600px; margin: 0 auto;" ++ dquote ++ js ">" ++ newline ++
  js "          <div style=" ++ dquote ++ js "background-color: #f8f9fa; padding: 20px; border-radius: 8px; margin-bottom: 20px;" ++ dquote ++ js ">" ++ newline ++
  js "            <h2 style=" ++ dquote ++ js "color: #e74c3c; margin: 0;" ++ dquote ++ js ">" ++ utf8 [240; 159; 167; 170] ++ js " Test Email</h2>" ++ newline ++
  js "            <p style=" ++ dquote ++ js "margin: 10px 0 0 0; color: #666;" ++ dquote ++ js ">This is a test email from your campaign.</p>" ++ newline ++
  js "          </div>" ++ newline ++
  js "          <div style=" ++ dquote ++ js "background-color: white; padding: 20px; border: 1px solid #ddd; border-radius: 8px;" ++ dquote ++ js ">" ++ newline ++
  js "            <h3>Subject: ".

Definition test_html_before_body : str :=
  js "</h3>" ++ newline ++
  js "            <div style=" ++ dquote ++ js "white-space: pre-wrap; line-height: 1.6;" ++ dquote ++ js ">".

Definition test_html_before_sender : str :=
  js "</div>" ++ newline ++
  js "          </div>" ++ newline ++
  js "          <div style=" ++ dquote ++ js "margin-top: 20px; text-align: center; color: #888; font-size: 12px;" ++ dquote ++ js ">" ++ newline ++
  js "            <p>This email was sent from ".

Definition test_html_before_address : str :=
  js " &lt;".

Definition test_html_tail : str :=
  js "&gt;</p>" ++ newline ++
  js "          </div>" ++ newline ++
  js "        </div>" ++ newline ++
  js "      ".

Definition test_html (t : template) (cfg : smtp_config) : str :=
  test_html_head ++ subject t ++
  test_html_before_body ++ body t ++
  test_html_before_sender ++ senderName cfg ++
  test_html_before_address ++ senderEmail cfg ++
  test_html_tail.

Definition test_email (t : template) (testEmail : option str)
           (cfg : smtp_config) : email_data :=
  {| to := testEmail;
     e_subject := js "[TEST] " ++ subject t;
     html := test_html t cfg;
     smtp := Some cfg |}.

Record test_request := {
  test_options : bool;               (** [req.method === 'OPTIONS'] *)
  test_campaignId : str;
  testEmail : option str;
  test_smtpConfig : option smtp_config
}.

Record test_service := {
  (** the template of the campaign as [.single()] returns it, [None] on
      [templateError] *)
  fetch_template : str -> option template;
  (** [supabase.functions.invoke('send-email', ...)]: the error's message,
      or [None] on success *)
  test_invoke : email_data -> option str;
  test_type_error : str
}.

Inductive test_payload :=
| test_no_body
| test_sent
| test_error (message : str).

Record test_response := { test_status : nat; test_body : test_payload }.

(** The handler of [send-test-email]; the second component lists the
    invocations of [send-email]. *)
Definition send_test_email (sv : test_service) (req : test_request)
  : test_response * list email_data :=
  if test_options req then ({| test_status := 200; test_body := test_no_body |}, [])
  else
    match fetch_template sv (test_campaignId req) with
    | None =>
        ({| test_status := 500;
            test_body := test_error (js "Failed to fetch template") |}, [])
    | Some t =>
        match test_smtpConfig req with
        | None =>
            ({| test_status := 500;
                test_body := test_error (test_type_error sv) |}, [])
        | Some cfg =>
            let emailData := test_email t (testEmail req) cfg in
            match test_invoke sv emailData with
            | Some message =>
                ({| test_status := 500; test_body := test_error message |},
                 [emailData])
            | None =>
                ({| test_status := 200; test_body := test_sent |}, [emailData])
            end
        end
    end.

(* ================================================================== *)
(** * The preview of the wizard ([PreviewStep]) *)
(* ================================================================== *)

(** The template as the wizard keeps it: [placeholders] is the list the
    template step detected. *)
Record wizard_template := {
  wt_subject : str;
  wt_body : str;
  wt_placeholders : option (list str)
}.

(** The callback of [placeholders.forEach] in [generatePreview], for a row
    that is there. *)
Definition preview_substitute (mappings : obj) (randomRow : obj)
           (preview : str * str) (placeholder : str) : str * str :=
  let mappedHeader := get mappings placeholder in
  if truthy mappedHeader && truthy (get randomRow (or_str mappedHeader []))
  then
    let value := or_str (get randomRow (or_str mappedHeader [])) [] in
    (RegExp.replace_placeholder placeholder (fst preview) value,
     RegExp.replace_placeholder placeholder (snd preview) value)
  else preview.

(** [placeholders.filter(p => !placeholderMappings[p])] *)
Definition unmapped (mappings : obj) (placeholders : list str) : list str :=
  filter (fun p => negb (truthy (get mappings p))) placeholders.

Inductive preview_outcome :=
| preview_skipped
| preview_threw (unmappedPlaceholders : list str)
| preview_set (unmappedPlaceholders : list str) (subject body : str)
              (sampleRow : option obj).

(** [generatePreview]; [index] is the value of
    [Math.floor(Math.random() * campaignData.csvData.length)].  The
    function returns at once when a part of the campaign data is missing;
    it throws when it reads a column of a row that is not there. *)
Definition generatePreview (t : option wizard_template)
           (csv : option (list obj)) (mappings : option obj) (index : nat)
  : preview_outcome :=
  match t, csv, mappings with
  | Some t, Some csv, Some mappings =>
      let placeholders :=
        match wt_placeholders t with Some l => l | None => [] end in
      match nth_error csv index with
      | Some randomRow =>
          let '(previewSubject, previewBody) :=
            fold_left (preview_substitute mappings randomRow) placeholders
                      (wt_subject t, wt_body t) in
          preview_set (unmapped mappings placeholders) previewSubject previewBody
                      (Some randomRow)
      | None =>
          if existsb (fun p => truthy (get mappings p)) placeholders
          then preview_threw (unmapped mappings placeholders)
          else preview_set (unmapped mappings placeholders)
                           (wt_subject t) (wt_body t) None
      end
  | _, _, _ => preview_skipped
  end.

(* ================================================================== *)
(** * The detection of placeholders ([EmailTemplateStep]) *)
(* ================================================================== *)







(* ================================================================== *)
(** * The launch from the wizard ([SendEmailsStep.sendCampaign]) *)
(* ================================================================== *)

(** What the wizard shows and does. *)
Inductive ui_event :=
| Toast (title description : str) (destructive : bool)
| NextStep.

Record client := {
  (** the error of the client's [update] of [campaigns], if it reports one *)
  campaignError : option str;
  (** row-level security: the campaign rows the signed-in user may update *)
  may_update : campaign_row -> bool;
  (** the [authorization] header the client library sends with the
      invocation of the function *)
  client_authorization : option str;
  (** the message of the error [functions.invoke] reports for an answer
      that is not 2xx *)
  invoke_error_message : str
}.

Definition set_active : campaign_patch :=
  {| set_status := Some active; set_total_recipients := None;
     set_sent_count := None; set_failed_count := None;
     set_completed_at := None |}.

(** [.update({ status: 'active' }).eq('id', campaignId)] by the signed-in
    user. *)
Definition client_activate (c : client) (campaignId : str) (w : world) : world :=
  {| campaigns :=
       map (fun r => if str_eqb (c_id r) campaignId && may_update c r
                     then patch_campaign set_active r else r)
           (campaigns w);
     recipients := recipients w;
     clock := clock w |}.

Definition launch_request (c : client) (campaignId : str) (cd : campaign_data)
  : request :=
  {| is_options := false;
     authorization := client_authorization c;
     campaignId := campaignId;
     campaignData := cd |}.

(** [sendCampaign]: the toasts and the step change, the store afterwards,
    and the store and mail calls in order. *)
Definition sendCampaign (c : client) (e : env) (campaignId : str)
           (cd : campaign_data) (w : world)
  : list ui_event * world * list event :=
  match campaignError c with
  | Some message =>
      ([Toast (js "Error launching campaign") message true], w,
       [UpdateCampaign campaignId set_active])
  | None =>
      let out := launch e (launch_request c campaignId cd)
                   (client_activate c campaignId w) in
      let st := http_status (result out) in
      if (200 <=? st) && (st <=? 299) then
        ([Toast (js "Campaign launched!")
            (js "Your email campaign has been started. Monitor progress in the logs section.")
            false;
          NextStep],
         final out, UpdateCampaign campaignId set_active :: trace out)
      else
        ([Toast (js "Error launching campaign") (invoke_error_message c) true],
         final out, UpdateCampaign campaignId set_active :: trace out)
  end.

(* ================================================================== *)
(** * Saving the CSV and the mappings ([CSVUploadStep.saveMappings]) *)
(* ================================================================== *)

(** A row of [placeholder_mappings]. *)
Record mapping_row := {
  mr_campaign_id : str;
  mr_user_id : option str;
  mr_placeholder : str;
  mr_csv_header : str
}.

(** The calls of the step to the storage and to the store. *)
Inductive upload_call :=
| StorageUpload (csvFileName content : str)
| UpdateCampaignCsv (campaignId csv_url : str) (total_emails : nat)
| DeleteMappings (campaignId : str) (user : option str)
| InsertMappings (rows : list mapping_row).

Inductive step_event :=
| StepToast (title description : str) (destructive : bool)
| DataChange (csvData : list obj) (csvHeaders : list str) (placeholderMappings : obj)
| StepNext.

Record upload_service := {
  unparse : list obj -> str;          (** [Papa.unparse] *)
  date_now : str;                     (** [Date.now()], as it prints *)
  uploadError : option str;
  csvCampaignError : option str;
  (** whether the store carries out the delete; the step does not look at
      its result *)
  delete_applies : bool;
  mappingError : option str
}.

(** [l.join(sep)] *)
Fixpoint join (sep : str) (l : list str) : str :=
  match l with
  | [] => []
  | x :: rest =>
      match rest with
      | [] => x
      | _ :: _ => x ++ sep ++ join sep rest
      end
  end.

(** [.delete().eq('campaign_id', campaignId).eq('user_id', user?.id)]: no
    row is selected when there is no user. *)
Definition delete_mappings (campaignId : str) (user : option str)
           (table : list mapping_row) : list mapping_row :=
  filter (fun r =>
            negb (str_eqb (mr_campaign_id r) campaignId &&
                  match user, mr_user_id r with
                  | Some u, Some u' => str_eqb u' u
                  | _, _ => false
                  end))
         table.

Definition mapping_data (campaignId : str) (user : option str) (mappings : obj)
  : list mapping_row :=
  map (fun entry =>
         {| mr_campaign_id := campaignId;
            mr_user_id := user;
            mr_placeholder := fst entry;
            mr_csv_header := snd entry |})
      mappings.

Definition save_error (message : str) : step_event :=
  StepToast (js "Error saving mappings") message true.

(** [saveMappings]: what the step shows and hands over, the table of
    mappings afterwards, and the calls it made, in order. *)
Definition saveMappings (sv : upload_service) (campaignId : str)
           (user : option str) (csvData : list obj) (csvHeaders : list str)
           (placeholders : list str) (mappings : obj)
           (table : list mapping_row)
  : list step_event * list mapping_row * list upload_call :=
  match csvData with
  | [] =>
      ([StepToast (js "No CSV data") (js "Please upload a CSV file first.") true],
       table, [])
  | _ :: _ =>
      match unmapped mappings placeholders with
      | _ :: _ =>
          ([StepToast (js "Incomplete mapping")
              (js "Please map all placeholders: " ++
               join (js ", ") (unmapped mappings placeholders)) true],
           table, [])
      | [] =>
          let csvFileName :=
            js "campaign-" ++ campaignId ++ js "-" ++ date_now sv ++ js ".csv" in
          let upload := StorageUpload csvFileName (unparse sv csvData) in
          match uploadError sv with
          | Some message => ([save_error message], table, [upload])
          | None =>
              let update :=
                UpdateCampaignCsv campaignId csvFileName (length csvData) in
              match csvCampaignError sv with
              | Some message => ([save_error message], table, [upload; update])
              | None =>
                  let table' :=
                    if delete_applies sv
                    then delete_mappings campaignId user table else table in
                  let mappingData := mapping_data campaignId user mappings in
                  let calls :=
                    [upload; update; DeleteMappings campaignId user;
                     InsertMappings mappingData] in
                  match mappingError sv with
                  | Some message => ([save_error message], table', calls)
                  | None =>
                      ([DataChange csvData csvHeaders mappings;
                        StepToast (js "Mappings saved!")
                          (js "Your CSV data and placeholder mappings have been saved.")
                          false;
                        StepNext],
                       table' ++ mappingData, calls)
                  end
              end
          end
      end
  end.

(* ================================================================== *)
(** * More sample data *)
(* ================================================================== *)

Module Fixture.

(** A store that refuses the insert of the recipients. *)
Definition insert_fails : env :=
  {| getUser := getUser (Sample.service Sample.always_ok);
     recipientsError := true;
     campaignUpdateError := false;
     invoke_send_email := Sample.always_ok;
     new_row_id := new_row_id (Sample.service Sample.always_ok) |}.

(** A store that accepts the insert and refuses the campaign update. *)
Definition update_fails : env :=
  {| getUser := getUser (Sample.service Sample.always_ok);
     recipientsError := false;
     campaignUpdateError := true;
     invoke_send_email := Sample.always_ok;
     new_row_id := new_row_id (Sample.service Sample.always_ok) |}.

Definition launch_of_rows : request :=
  Sample.request_with Sample.rows (Some Sample.sender).

(** The same request with another [authorization] header. *)
Definition with_header (header : option str) : request :=
  {| is_options := false;
     authorization := header;
     campaignId := js "c1";
     campaignData := campaignData launch_of_rows |}.

(** Resend answers every mail with an error. *)
Definition resend_rejects : mail_service :=
  {| RESEND_API_KEY := Some (js "re_123");
     resend_constructor := None;
     resend_send := fun _ => resend_error (js "domain not verified");
     type_error := js "Cannot read properties of null" |}.

(** Resend accepts every mail. *)
Definition resend_accepts : mail_service :=
  {| RESEND_API_KEY := Some (js "re_123");
     resend_constructor := None;
     resend_send := fun _ => resend_data (Some (js "m1"));
     type_error := js "Cannot read properties of null" |}.

Definition mail : email_data :=
  {| to := Some (js "ana@x.org"); e_subject := js "Hi Ana";
     html := js "Dear Ana, welcome."; smtp := Some Sample.sender |}.

Definition mail_without_config : email_data :=
  {| to := Some (js "ana@x.org"); e_subject := js "Hi Ana";
     html := js "Dear Ana, welcome."; smtp := None |}.

Definition http_error : str := js "Edge Function returned a non-2xx status code".

(** A template store that knows the campaign [c1], and a mail function that
    accepts. *)
Definition test_service_ok : test_service :=
  {| fetch_template := fun cid => if str_eqb cid (js "c1") then Some Sample.greeting else None;
     test_invoke := fun _ => None;
     test_type_error := js "Cannot read properties of undefined" |}.

Definition test_service_failing : test_service :=
  {| fetch_template := fun cid => if str_eqb cid (js "c1") then Some Sample.greeting else None;
     test_invoke := fun _ => Some http_error;
     test_type_error := js "Cannot read properties of undefined" |}.

Definition test_request_for (cid : str) (cfg : option smtp_config) : test_request :=
  {| test_options := false; test_campaignId := cid;
     testEmail := Some (js "me@x.org"); test_smtpConfig := cfg |}.


Definition greeting_only : wizard_template :=
  {| wt_subject := subject Sample.greeting;
     wt_body := body Sample.greeting;
     wt_placeholders := Some [js "{{name}}"] |}.

(** A signed-in user whose token the auth service does not accept. *)
Definition stale_client : client :=
  {| campaignError := None;
     may_update := fun _ => true;
     client_authorization := Some (js "Bearer old");
     invoke_error_message := http_error |}.

(** A store that accepts the upload and the update, carries out the delete
    and refuses the insert of the mappings. *)
Definition insert_of_mappings_fails : upload_service :=
  {| unparse := fun _ => js "email,firstName";
     date_now := js "1750000000000";
     uploadError := None;
     csvCampaignError := None;
     delete_applies := true;
     mappingError := Some (js "insert failed") |}.

Definition upload_accepts : upload_service :=
  {| unparse := fun _ => js "email,firstName";
     date_now := js "1750000000000";
     uploadError := None;
     csvCampaignError := None;
     delete_applies := true;
     mappingError := None |}.

(** The mappings saved earlier for campaign [c1] by user [u1], and one of
    another campaign. *)
Definition saved_mappings : list mapping_row :=
  [ {| mr_campaign_id := js "c1"; mr_user_id := Some (js "u1");
       mr_placeholder := js "{{name}}"; mr_csv_header := js "name" |};
    {| mr_campaign_id := js "c2"; mr_user_id := Some (js "u1");
       mr_placeholder := js "{{city}}"; mr_csv_header := js "city" |} ].

End Fixture.

(* ================================================================== *)
(** * Strings: prefixes and occurrences *)
(* ================================================================== *)

Lemma ascii_eqb_eq (a b : ascii) : ascii_eqb a b = true <-> a = b.
Proof. apply Ascii.eqb_eq. Qed.

Lemma ascii_eqb_refl (a : ascii) : ascii_eqb a a = true.
Proof. apply Ascii.eqb_refl. Qed.

Lemma str_eqb_refl (a : str) : str_eqb a a = true.
Proof.
  induction a as [|x a IH]; simpl; [reflexivity|].
  unfold ascii_eqb. now rewrite Ascii.eqb_refl.
Qed.

Lemma str_eqb_eq (a b : str) : str_eqb a b = true <-> a = b.
Proof.
  split.
  - revert b. induction a as [|x a IH]; intros [|y b] H; simpl in H;
      try discriminate; [reflexivity|].
    apply andb_true_iff in H. destruct H as [H1 H2].
    apply Ascii.eqb_eq in H1. apply IH in H2. now subst.
  - intros ->. apply str_eqb_refl.
Qed.
Lemma startsWith_app (p r : str) : startsWith p (p ++ r) = true.
Proof.
  induction p as [|x p IH]; [reflexivity|].
  simpl. now rewrite ascii_eqb_refl.
Qed.

Lemma startsWith_inv (p : str) : forall s,
  startsWith p s = true -> s = p ++ skipn (length p) s.
Proof.
  induction p as [|x p IH]; intros s H; [reflexivity|].
  destruct s as [|y s]; [discriminate|]. simpl in H.
  apply andb_true_iff in H. destruct H as [H1 H2].
  apply ascii_eqb_eq in H1. subst y. simpl. f_equal. now apply IH.
Qed.

Lemma startsWith_length (p s : str) :
  startsWith p s = true -> length p <= length s.
Proof.
  intros H. rewrite (startsWith_inv p s H), length_app. lia.
Qed.

Lemma includes_cons p c s : includes p s = true -> includes p (c :: s) = true.
Proof. intros H. simpl. rewrite H. apply orb_true_r. Qed.

Lemma includes_here p r : includes p (p ++ r) = true.
Proof.
  destruct (p ++ r) eqn:E; simpl; rewrite <- E, startsWith_app; reflexivity.
Qed.

Lemma includes_app_r p a s : includes p s = true -> includes p (a ++ s) = true.
Proof.
  intros H. induction a as [|c a IH]; [assumption|].
  simpl app. now apply includes_cons.
Qed.

Lemma includes_app_l p s : forall b, includes p s = true -> includes p (s ++ b) = true.
Proof.
  induction s as [|c s IH]; intros b H.
  - simpl in H. rewrite orb_false_r in H.
    destruct p; [|discriminate].
    destruct b; reflexivity.
  - simpl in H. apply orb_true_iff in H. destruct H as [H|H].
    + rewrite (startsWith_inv _ _ H), <- app_assoc. apply includes_here.
    + simpl app. apply includes_cons. now apply IH.
Qed.

(* ================================================================== *)
(** * The escaped placeholder is matched as it is written *)
(* ================================================================== *)

Lemma compile_escape (p : str) : RegExp.compile (RegExp.escape p) = Some p.
Proof.
  induction p as [|c p IH]; [reflexivity|].
  cbn [RegExp.escape]. destruct (RegExp.is_syntax_char c) eqn:Hs.
  - cbn [RegExp.compile]. rewrite ascii_eqb_refl, Hs, IH. reflexivity.
  - cbn [RegExp.compile]. rewrite Hs, IH.
    destruct (ascii_eqb c RegExp.backslash) eqn:Hb; [|reflexivity].
    apply ascii_eqb_eq in Hb. subst c. discriminate.
Qed.

Lemma replace_placeholder_eq placeholder text value :
  RegExp.replace_placeholder placeholder text value =
  RegExp.replace_scan placeholder value [] 0 text.
Proof.
  unfold RegExp.replace_placeholder. now rewrite compile_escape.
Qed.

(* ================================================================== *)
(** * The scan of [replace] *)
(* ================================================================== *)

Lemma scan_skip p value : forall rest k before,
  k <= length rest ->
  RegExp.replace_scan p value before k rest =
  RegExp.replace_scan p value (before ++ firstn k rest) 0 (skipn k rest).
Proof.
  induction rest as [|c rest IH]; intros k before Hk.
  - simpl in Hk. assert (k = 0) by lia. subst k. cbn [firstn skipn].
    now rewrite app_nil_r.
  - destruct k as [|k].
    + cbn [firstn skipn]. now rewrite app_nil_r.
    + simpl in Hk. cbn [RegExp.replace_scan].
      rewrite IH by lia. cbn [firstn skipn].
      now rewrite <- app_assoc.
Qed.

Lemma scan_nil p value before :
  p <> [] -> RegExp.replace_scan p value before 0 [] = [].
Proof. destruct p; [congruence|reflexivity]. Qed.

(** At a match the substitution is emitted and the scan resumes behind the
    match. *)
Lemma scan_match p value before rest :
  p <> [] ->
  startsWith p rest = true ->
  RegExp.replace_scan p value before 0 rest =
  RegExp.getSubstitution p before (skipn (length p) rest) value ++
  RegExp.replace_scan p value (before ++ p) 0 (skipn (length p) rest).
Proof.
  intros Hp H.
  destruct p as [|x p']; [congruence|].
  destruct rest as [|c rest]; [discriminate|].
  cbn [RegExp.replace_scan]. rewrite H. f_equal.
  cbn [startsWith] in H. apply andb_true_iff in H. destruct H as [Hx Hp'].
  apply ascii_eqb_eq in Hx. subst c.
  rewrite scan_skip by now apply startsWith_length.
  cbn [length skipn].
  rewrite (startsWith_inv p' rest Hp') at 1.
  rewrite firstn_app, firstn_all, Nat.sub_diag. cbn [firstn].
  rewrite app_nil_r, <- app_assoc. reflexivity.
Qed.

(** Elsewhere the code unit is copied. *)
Lemma scan_no_match p value before c rest :
  startsWith p (c :: rest) = false ->
  RegExp.replace_scan p value before 0 (c :: rest) =
  c :: RegExp.replace_scan p value (before ++ [c]) 0 rest.
Proof. intros H. cbn [RegExp.replace_scan]. now rewrite H. Qed.

(* ================================================================== *)
(** * Placeholder tokens do not overlap *)
(* ================================================================== *)












(* ================================================================== *)
(** * The scan as a literal replacement *)
(* ================================================================== *)

Lemma getSubstitution_plain matched before after : forall value,
  ~ In RegExp.dollar value ->
  RegExp.getSubstitution matched before after value = value.
Proof.
  induction value as [|c value IH]; intros H; [reflexivity|].
  cbn [RegExp.getSubstitution].
  destruct (ascii_eqb c RegExp.dollar) eqn:E.
  - apply ascii_eqb_eq in E. subst c. exfalso. apply H. now left.
  - f_equal. apply IH. intros Hin. apply H. now right.
Qed.

Lemma find_nil p : p <> [] -> find p [] = None.
Proof. destruct p; [congruence|reflexivity]. Qed.

(** The scan up to the leftmost match, and from there on. *)
Lemma scan_find p value :
  p <> [] ->
  forall rest before,
    match find p rest with
    | None => RegExp.replace_scan p value before 0 rest = rest
    | Some i =>
        RegExp.replace_scan p value before 0 rest =
        firstn i rest ++
        RegExp.getSubstitution p (before ++ firstn i rest)
          (skipn (i + length p) rest) value ++
        RegExp.replace_scan p value (before ++ firstn (i + length p) rest) 0
          (skipn (i + length p) rest)
    end.
Proof.
  intros Hp. induction rest as [|c rest IH]; intros before.
  - rewrite find_nil by assumption. now apply scan_nil.
  - cbn [find]. destruct (startsWith p (c :: rest)) eqn:E.
    + rewrite scan_match by assumption.
      cbn [firstn app Nat.add]. rewrite app_nil_r.
      assert (F : firstn (length p) (c :: rest) = p).
      { rewrite (startsWith_inv _ _ E) at 1.
        rewrite firstn_app, firstn_all, Nat.sub_diag. cbn [firstn].
        now rewrite app_nil_r. }
      now rewrite F.
    + rewrite scan_no_match by assumption.
      specialize (IH (before ++ [c])).
      destruct (find p rest) as [i|]; cbn [option_map].
      * rewrite IH. cbn [firstn skipn Nat.add app].
        rewrite <- !app_assoc. reflexivity.
      * now rewrite IH.
Qed.

Lemma find_some_nonempty p s i : p <> [] -> find p s = Some i -> s <> [].
Proof. intros Hp H ->. rewrite find_nil in H by assumption. discriminate. Qed.

(** With a value free of [$] the scan is the literal replacement of every
    occurrence. *)
Lemma scan_literal p value :
  p <> [] -> ~ In RegExp.dollar value ->
  forall n rest before,
    length rest <= n ->
    literal_replaced p value rest (RegExp.replace_scan p value before 0 rest).
Proof.
  intros Hp Hv. induction n as [|n IH]; intros rest before Hn.
  - destruct rest; [|simpl in Hn; lia].
    rewrite scan_nil by assumption. apply literal_none. now apply find_nil.
  - pose proof (scan_find p value Hp rest before) as H.
    destruct (find p rest) as [i|] eqn:F.
    + rewrite H, getSubstitution_plain by assumption.
      apply literal_next; [assumption|]. apply IH.
      rewrite length_skipn.
      assert (length rest <> 0).
      { pose proof (find_some_nonempty p rest i Hp F). destruct rest; simpl; congruence. }
      assert (length p <> 0) by (destruct p; simpl; congruence).
      lia.
    + rewrite H. now apply literal_none.
Qed.

Lemma replace_literal p value text :
  p <> [] -> ~ In RegExp.dollar value ->
  literal_replaced p value text (RegExp.replace_placeholder p text value).
Proof.
  intros Hp Hv. rewrite replace_placeholder_eq.
  now apply (scan_literal p value Hp Hv (length text)).
Qed.

(** The literal replacement determines its result. *)
Lemma literal_replaced_unique p v s o :
  literal_replaced p v s o -> forall o', literal_replaced p v s o' -> o = o'.
Proof.
  induction 1 as [s F|s i out F H IH]; intros o' H'.
  - inversion H' as [s' F'|s' i' out' F' H'']; subst; [reflexivity|congruence].
  - inversion H' as [s' F'|s' i' out' F' H'']; subst; [congruence|].
    rewrite F in F'. inversion F'; subst i'.
    f_equal. f_equal. now apply IH.
Qed.

Lemma rendered_unique recipient_data entries s o :
  rendered recipient_data entries s o ->
  forall o', rendered recipient_data entries s o' -> o = o'.
Proof.
  induction 1 as [s|p col entries s s1 out L R IH]; intros o' H'.
  - now inversion H'.
  - inversion H' as [|p' col' entries' s' s1' out' L' R']; subst.
    rewrite (literal_replaced_unique _ _ _ _ L _ L') in *. now apply IH.
Qed.

(** The fold of [personalize], entry by entry. *)
Lemma fold_rendered recipient_data : forall entries s1 s2,
  (forall placeholder col,
     In (placeholder, col) entries ->
     placeholder <> [] /\
     ~ In RegExp.dollar (or_str (get recipient_data col) [])) ->
  rendered recipient_data entries s1
    (fst (fold_left (substitute recipient_data) entries (s1, s2))) /\
  rendered recipient_data entries s2
    (snd (fold_left (substitute recipient_data) entries (s1, s2))).
Proof.
  induction entries as [|[placeholder col] entries IH]; intros s1 s2 H.
  - split; apply rendered_done.
  - cbn [fold_left substitute fst snd].
    destruct (H placeholder col (or_introl eq_refl)) as [Hp Hv].
    destruct (IH (RegExp.replace_placeholder placeholder s1
                    (or_str (get recipient_data col) []))
                 (RegExp.replace_placeholder placeholder s2
                    (or_str (get recipient_data col) [])))
      as [R1 R2].
    { intros p' c' Hin. apply (H p' c'). now right. }
    split; eapply rendered_entry; eauto using replace_literal.
Qed.


(* ================================================================== *)
(** * Reading the outcome of an effectful computation *)
(* ================================================================== *)

Lemma result_triple {A} (a : A) w tr : result (a, w, tr) = a.
Proof. reflexivity. Qed.

Lemma final_triple {A} (a : A) w tr : final (a, w, tr) = w.
Proof. reflexivity. Qed.

Lemma trace_triple {A} (a : A) w tr : trace (a, w, tr) = tr.
Proof. reflexivity. Qed.

Lemma triple_eta {A} (x : A * world * list event) :
  x = (result x, final x, trace x).
Proof. now destruct x as [[a w] tr]. Qed.

(* ================================================================== *)
(** * The dispatch loop: one turn, prefixes of a run *)
(* ================================================================== *)

Section Dispatch.

Variable e : env.
Variable cid : str.
Variable t : template.
Variable m : obj.
Variable cfg : option smtp_config.

(** What one attempt does, by the answer of the mail sender. *)
Lemma attempt_eq n r s f w :
  attempt e t m cfg n r (s, f) w =
  match invoke_send_email e n (compose_email t m cfg r) with
  | None =>
      ((s + 1, f),
       advance_clock 1000
         (store_update_recipient (id r) (mark_sent (clock w)) w),
       [InvokeSendEmail (compose_email t m cfg r);
        UpdateRecipient (id r) (mark_sent (clock w));
        Delay 1000])
  | Some message =>
      ((s, f + 1),
       store_update_recipient (id r) (mark_failed message) w,
       [InvokeSendEmail (compose_email t m cfg r);
        UpdateRecipient (id r) (mark_failed message)])
  end.
Proof.
  unfold attempt, bind, send_email.
  destruct (invoke_send_email e n (compose_email t m cfg r)); reflexivity.
Qed.

Lemma attempt_counts n r s f w :
  result (attempt e t m cfg n r (s, f) w) =
  match invoke_send_email e n (compose_email t m cfg r) with
  | None => (s + 1, f)
  | Some _ => (s, f + 1)
  end.
Proof.
  rewrite attempt_eq.
  destruct (invoke_send_email e n (compose_email t m cfg r)); reflexivity.
Qed.

Lemma checkpoint_eq s f w :
  checkpoint cid (s, f) w =
  if (s + f) mod 10 =? 0
  then (tt, store_update_campaign cid (progress s f) w,
        [UpdateCampaign cid (progress s f)])
  else (tt, w, []).
Proof.
  unfold checkpoint. destruct ((s + f) mod 10 =? 0); reflexivity.
Qed.

Lemma loop_body_eq n r c w :
  loop_body e cid t m cfg n r c w =
  (result (attempt e t m cfg n r c w),
   final (checkpoint cid (result (attempt e t m cfg n r c w))
                     (final (attempt e t m cfg n r c w))),
   trace (attempt e t m cfg n r c w) ++
   trace (checkpoint cid (result (attempt e t m cfg n r c w))
                     (final (attempt e t m cfg n r c w)))).
Proof.
  unfold loop_body, bind, ret, result, final, trace.
  destruct (attempt e t m cfg n r c w) as [[c1 w1] t1]. simpl.
  destruct (checkpoint cid c1 w1) as [[u w2] t2]. simpl.
  now rewrite app_nil_r.
Qed.

Lemma loop_body_counts n r s f w :
  result (loop_body e cid t m cfg n r (s, f) w) = (s + 1, f) \/
  result (loop_body e cid t m cfg n r (s, f) w) = (s, f + 1).
Proof.
  rewrite loop_body_eq, !result_triple, attempt_counts.
  destruct (invoke_send_email e n (compose_email t m cfg r)); auto.
Qed.

Lemma send_loop_cons n r rs c w :
  send_loop e cid t m cfg n (r :: rs) c w =
  let x := loop_body e cid t m cfg n r c w in
  let y := send_loop e cid t m cfg (S n) rs (result x) (final x) in
  (result y, final y, trace x ++ trace y).
Proof.
  simpl. unfold bind, result, final, trace.
  destruct (loop_body e cid t m cfg n r c w) as [[c1 w1] t1]. simpl.
  destruct (send_loop e cid t m cfg (S n) rs c1 w1) as [[c2 w2] t2].
  reflexivity.
Qed.

(** A run over [l1 ++ l2] is the run over [l1] followed by the run over
    [l2]: the state reached after [length l1] attempts is the state of
    the run over [l1]. *)
Lemma send_loop_app l1 : forall l2 n c w,
  send_loop e cid t m cfg n (l1 ++ l2) c w =
  let x := send_loop e cid t m cfg n l1 c w in
  let y := send_loop e cid t m cfg (n + length l1) l2 (result x) (final x) in
  (result y, final y, trace x ++ trace y).
Proof.
  induction l1 as [|r l1 IH]; intros l2 n c w.
  - simpl. rewrite Nat.add_0_r. unfold ret, result, final, trace. simpl.
    now destruct (send_loop e cid t m cfg n l2 c w) as [[c2 w2] t2].
  - rewrite <- app_comm_cons, !send_loop_cons. cbv zeta.
    rewrite IH. cbv zeta. unfold result, final, trace. simpl.
    replace (n + S (length l1)) with (S n + length l1) by lia.
    now rewrite app_assoc.
Qed.

(** The counters add up to the number of attempts made. *)
Lemma send_loop_sum rs : forall n s f w,
  fst (result (send_loop e cid t m cfg n rs (s, f) w)) +
  snd (result (send_loop e cid t m cfg n rs (s, f) w)) = s + f + length rs.
Proof.
  induction rs as [|r rs IH]; intros n s f w.
  - simpl. lia.
  - rewrite send_loop_cons. cbv zeta. rewrite !result_triple.
    destruct (loop_body_counts n r s f w) as [E|E]; rewrite E, IH; simpl; lia.
Qed.

(** One turn, spelled out: the new counters, and what is written. *)
Lemma loop_body_cases n r s f w :
  exists s1 f1,
    result (loop_body e cid t m cfg n r (s, f) w) = (s1, f1) /\
    ((s1 = s + 1 /\ f1 = f) \/ (s1 = s /\ f1 = f + 1)) /\
    trace (loop_body e cid t m cfg n r (s, f) w) =
      trace (attempt e t m cfg n r (s, f) w) ++
      (if (s1 + f1) mod 10 =? 0 then [UpdateCampaign cid (progress s1 f1)]
       else []).
Proof.
  rewrite loop_body_eq, result_triple, trace_triple, attempt_counts.
  destruct (invoke_send_email e n (compose_email t m cfg r)).
  - exists s, (f + 1). repeat split; auto.
    rewrite checkpoint_eq. now destruct ((s + (f + 1)) mod 10 =? 0).
  - exists (s + 1), f. repeat split; auto.
    rewrite checkpoint_eq. now destruct ((s + 1 + f) mod 10 =? 0).
Qed.

Lemma attempt_no_campaign_write n r c w i p :
  ~ In (UpdateCampaign i p) (trace (attempt e t m cfg n r c w)).
Proof.
  destruct c as [s f]. rewrite attempt_eq.
  destruct (invoke_send_email e n (compose_email t m cfg r));
    rewrite trace_triple; simpl; intuition congruence.
Qed.

(** Every progress write of the loop carries counters that were reached
    by some attempt of the run. *)
Lemma send_loop_campaign_writes rs : forall n s f w i p,
  In (UpdateCampaign i p) (trace (send_loop e cid t m cfg n rs (s, f) w)) ->
  exists s' f',
    i = cid /\ p = progress s' f' /\
    s + f < s' + f' /\ s' + f' <= s + f + length rs.
Proof.
  induction rs as [|r rs IH]; intros n s f w i p H.
  - simpl in H. contradiction.
  - rewrite send_loop_cons in H. cbv zeta in H. rewrite trace_triple in H.
    destruct (loop_body_cases n r s f w) as (s1 & f1 & E & Hc & Ht).
    rewrite E, Ht in H.
    apply in_app_or in H. destruct H as [H|H].
    + apply in_app_or in H. destruct H as [H|H].
      * now apply attempt_no_campaign_write in H.
      * destruct ((s1 + f1) mod 10 =? 0); simpl in H; [|contradiction].
        destruct H as [H|[]]. inversion H; subst i p.
        exists s1, f1. simpl. repeat split; lia.
    + apply IH in H. destruct H as (s' & f' & -> & -> & L1 & L2).
      exists s', f'. simpl. repeat split; lia.
Qed.

(** ** What the run leaves in the store *)

Lemma attempt_campaigns n r c w :
  campaigns (final (attempt e t m cfg n r c w)) = campaigns w.
Proof.
  destruct c as [s f]. rewrite attempt_eq.
  destruct (invoke_send_email e n (compose_email t m cfg r)); reflexivity.
Qed.

Lemma progress_same_totals s f w :
  same_totals w (store_update_campaign cid (progress s f) w).
Proof.
  unfold same_totals. simpl. rewrite map_map. apply map_ext.
  intros c. now destruct (str_eqb (c_id c) cid).
Qed.

Lemma loop_body_same_totals n r c w :
  same_totals w (final (loop_body e cid t m cfg n r c w)).
Proof.
  rewrite loop_body_eq, final_triple.
  destruct (result (attempt e t m cfg n r c w)) as [s1 f1].
  rewrite checkpoint_eq.
  destruct ((s1 + f1) mod 10 =? 0); rewrite final_triple.
  - unfold same_totals. rewrite progress_same_totals.
    now rewrite attempt_campaigns.
  - unfold same_totals. now rewrite attempt_campaigns.
Qed.

Lemma send_loop_same_totals rs : forall n c w,
  same_totals w (final (send_loop e cid t m cfg n rs c w)).
Proof.
  induction rs as [|r rs IH]; intros n c w.
  - reflexivity.
  - rewrite send_loop_cons. cbv zeta. rewrite final_triple.
    unfold same_totals. rewrite IH. apply loop_body_same_totals.
Qed.

(** The whole background run, spelled out. *)
Lemma sendEmailsInBackground_eq rs w :
  sendEmailsInBackground e cid t rs m cfg w =
  let x := send_loop e cid t m cfg 0 rs (0, 0) w in
  let s := fst (result x) in
  let f := snd (result x) in
  let p := final_update (s + f =? length rs) s f (clock (final x)) in
  (tt, store_update_campaign cid p (final x),
   trace x ++ [UpdateCampaign cid p]).
Proof.
  unfold sendEmailsInBackground, final_campaign_update, bind, now, update_campaign.
  destruct (send_loop e cid t m cfg 0 rs (0, 0) w) as [[[s f] w1] t1].
  reflexivity.
Qed.

(** The final campaign update, spelled out. *)
Lemma final_campaign_update_eq total s f w :
  final_campaign_update cid total (s, f) w =
  (tt,
   store_update_campaign cid (final_update (s + f =? total) s f (clock w)) w,
   [UpdateCampaign cid (final_update (s + f =? total) s f (clock w))]).
Proof. reflexivity. Qed.

End Dispatch.

(* ================================================================== *)
(** * Counters and progress writes *)
(* ================================================================== *)

Lemma firstn_succ_nth {A} (l : list A) : forall k x,
  nth_error l k = Some x -> firstn (S k) l = firstn k l ++ [x].
Proof.
  induction l as [|a l IH]; intros [|k] x H; simpl in *; try discriminate.
  - now inversion H.
  - f_equal. now apply IH.
Qed.

Section Counters.

Variable e : env.
Variable cid : str.
Variable t : template.
Variable m : obj.
Variable cfg : option smtp_config.

(** The state after [k + 1] attempts is one turn of the loop away from
    the state after [k] attempts. *)
Lemma after_attempts_step rs w k r :
  nth_error rs k = Some r ->
  after_attempts e cid t m cfg rs w (S k) =
  let x := after_attempts e cid t m cfg rs w k in
  let y := loop_body e cid t m cfg k r (result x) (final x) in
  (result y, final y, trace x ++ trace y).
Proof.
  intros H. unfold after_attempts.
  rewrite (firstn_succ_nth _ _ _ H), send_loop_app. cbv zeta.
  assert (L : length (firstn k rs) = k).
  { apply firstn_length_le. apply Nat.lt_le_incl, nth_error_Some. congruence. }
  rewrite L. change (0 + k) with k.
  rewrite send_loop_cons. cbv zeta. simpl send_loop. unfold ret.
  rewrite !result_triple, !final_triple, !trace_triple.
  now rewrite app_nil_r.
Qed.

Lemma after_attempts_all rs w :
  after_attempts e cid t m cfg rs w (length rs) =
  send_loop e cid t m cfg 0 rs (0, 0) w.
Proof. unfold after_attempts. now rewrite firstn_all. Qed.

Lemma after_attempts_sum rs w k :
  k <= length rs ->
  fst (result (after_attempts e cid t m cfg rs w k)) +
  snd (result (after_attempts e cid t m cfg rs w k)) = k.
Proof.
  intros H. unfold after_attempts.
  rewrite send_loop_sum, firstn_length_le by assumption. reflexivity.
Qed.

(** Every pair of counters the run writes to the campaign. *)
Lemma background_writes_bounded rs w i p s f :
  In (UpdateCampaign i p) (trace (sendEmailsInBackground e cid t rs m cfg w)) ->
  set_sent_count p = Some s -> set_failed_count p = Some f ->
  s + f <= length rs.
Proof.
  rewrite sendEmailsInBackground_eq. cbv zeta. rewrite trace_triple.
  intros H Hs Hf. apply in_app_or in H. destruct H as [H|H].
  - apply send_loop_campaign_writes in H.
    destruct H as (s' & f' & _ & -> & _ & L). simpl in Hs, Hf.
    inversion Hs; inversion Hf; subst. simpl in L. exact L.
  - destruct H as [H|[]]. inversion H; subst i p. simpl in Hs, Hf.
    inversion Hs; inversion Hf; subst.
    now rewrite send_loop_sum.
Qed.

End Counters.

(** ** The stored counters after a launch *)

Lemma patched_row_inv cid p c (l : list campaign_row) :
  In c (map (fun c0 => if str_eqb (c_id c0) cid then patch_campaign p c0 else c0) l) ->
  exists c0, In c0 l /\ c_id c0 = c_id c /\
             c = (if str_eqb (c_id c0) cid then patch_campaign p c0 else c0).
Proof.
  intros H. apply in_map_iff in H. destruct H as (c0 & E & H0).
  exists c0. split; [assumption|]. split; [|now symmetry].
  subst c. now destruct (str_eqb (c_id c0) cid).
Qed.

Lemma same_totals_in w w' c :
  same_totals w w' -> In c (campaigns w') ->
  exists c0, In c0 (campaigns w) /\ c_id c0 = c_id c /\
             total_recipients c0 = total_recipients c.
Proof.
  unfold same_totals. intros E H.
  apply (in_map (fun c => (c_id c, total_recipients c))) in H.
  rewrite E in H. apply in_map_iff in H. destruct H as (c0 & E0 & H0).
  inversion E0. eauto.
Qed.

(** An accepted launch: what [handler] did, and the run it started. *)
Lemma handler_accepted e req w :
  is_options req = false ->
  http_status (fst (result (handler e req w))) = 200 ->
  exists user,
    let cd := campaignData req in
    let rs := map (new_recipient (campaignId req) user (placeholderMappings cd))
                  (csvData cd) in
    let w1 := store_update_campaign (campaignId req) (activate (length (csvData cd)))
                (store_insert_recipients (new_row_id e) rs w) in
    final (handler e req w) = w1 /\
    trace (handler e req w) =
      [InsertRecipients rs;
       UpdateCampaign (campaignId req) (activate (length (csvData cd)))] /\
    fst (result (handler e req w)) =
      {| http_status := 200;
         payload := started (campaignId req) (length (csvData cd)) |} /\
    snd (result (handler e req w)) =
      Some (sendEmailsInBackground e (campaignId req) (cd_template cd) rs
              (placeholderMappings cd) (smtpConfig cd)).
Proof.
  intros Ho. unfold handler. rewrite Ho.
  destruct (negb (truthy (option_map (remove_first (js "Bearer ")) (authorization req))));
    [discriminate|].
  destruct (getUser e _) as [user|]; [|discriminate].
  unfold bind, insert_recipients, activate_campaign, ret.
  destruct (recipientsError e); [discriminate|].
  destruct (campaignUpdateError e); [discriminate|].
  intros _. exists user. cbv zeta. repeat split.
Qed.

Lemma launch_eq e req w :
  launch e req w =
  let x := handler e req w in
  match snd (result x) with
  | Some background =>
      (fst (result x), final (background (final x)),
       trace x ++ trace (background (final x)))
  | None => (fst (result x), final x, trace x)
  end.
Proof.
  unfold launch, bind, ret. cbv zeta.
  destruct (handler e req w) as [[[r [b|]] w1] t1]; simpl.
  - unfold result, final, trace. simpl.
    destruct (b w1) as [[u w2] t2]. simpl. now rewrite app_nil_r.
  - unfold result, final, trace. simpl. now rewrite app_nil_r.
Qed.

(** After an accepted launch has run to its end, the stored counters of
    the campaign add up to its stored total, and it is [completed]. *)
Lemma launch_counts_total e req w c :
  is_options req = false ->
  http_status (result (launch e req w)) = 200 ->
  In c (campaigns (final (launch e req w))) ->
  c_id c = campaignId req ->
  sent_count c + failed_count c = total_recipients c /\
  total_recipients c = length (csvData (campaignData req)) /\
  c_status c = completed.
Proof.
  intros Ho H200 Hin Hid.
  rewrite launch_eq in H200, Hin. cbv zeta in H200, Hin.
  assert (H200' : http_status (fst (result (handler e req w))) = 200).
  { destruct (snd (result (handler e req w))); exact H200. }
  destruct (handler_accepted e req w Ho H200') as (user & Hw & _ & _ & Hb).
  cbv zeta in Hw, Hb. rewrite Hb in Hin. rewrite final_triple in Hin.
  rewrite sendEmailsInBackground_eq in Hin. cbv zeta in Hin.
  rewrite final_triple in Hin. simpl campaigns in Hin.
  apply patched_row_inv in Hin. destruct Hin as (c0 & Hin0 & Hid0 & Ec).
  rewrite Hid0, Hid, str_eqb_refl in Ec.
  pose proof (send_loop_same_totals e (campaignId req)
                (cd_template (campaignData req)) (placeholderMappings (campaignData req))
                (smtpConfig (campaignData req))
                (map (new_recipient (campaignId req) user
                        (placeholderMappings (campaignData req)))
                     (csvData (campaignData req)))
                0 (0, 0) (final (handler e req w))) as St.
  destruct (same_totals_in _ _ _ St Hin0) as (c1 & Hin1 & Hid1 & Ht1).
  rewrite Hw in Hin1. simpl campaigns in Hin1.
  apply patched_row_inv in Hin1. destruct Hin1 as (c2 & _ & Hid2 & Ec1).
  rewrite Hid2, Hid1, Hid0, Hid, str_eqb_refl in Ec1.
  assert (Tot : total_recipients c0 = length (csvData (campaignData req))).
  { rewrite <- Ht1, Ec1. reflexivity. }
  rewrite Ec. simpl.
  rewrite send_loop_sum, length_map. simpl.
  rewrite Nat.eqb_refl. repeat split; try assumption.
  now rewrite Tot.
Qed.

(** C6: counter invariant.  At the point of a dispatch run where [k]
    recipients have been attempted the running counters add up to [k],
    hence to at most the number of recipients; the next turn of the loop
    adds one to exactly one of the two counters; every pair of counters
    that the run writes to the campaign adds up to at most the number of
    recipients; when all recipients have been attempted the counters add up
    to the number of recipients, and after a launch that ran to its end the
    stored [sent_count + failed_count] equals the stored
    [total_recipients]. *)
Theorem counter_invariant e cid t m cfg rs w k :
  k <= length rs ->
  let running := result (after_attempts e cid t m cfg rs w k) in
  let done := result (send_loop e cid t m cfg 0 rs (0, 0) w) in
  (fst running + snd running = k /\ fst running + snd running <= length rs) /\
  (forall r, nth_error rs k = Some r ->
     let next := result (after_attempts e cid t m cfg rs w (S k)) in
     next = (fst running + 1, snd running) \/
     next = (fst running, snd running + 1)) /\
  (forall i p s f,
     In (UpdateCampaign i p) (trace (sendEmailsInBackground e cid t rs m cfg w)) ->
     set_sent_count p = Some s -> set_failed_count p = Some f ->
     s + f <= length rs) /\
  fst done + snd done = length rs /\
  (forall req c,
     is_options req = false ->
     http_status (result (launch e req w)) = 200 ->
     In c (campaigns (final (launch e req w))) ->
     c_id c = campaignId req ->
     sent_count c + failed_count c = total_recipients c).
Proof.
  intros Hk. cbv zeta. repeat split.
  - now apply after_attempts_sum.
  - rewrite after_attempts_sum by assumption. exact Hk.
  - intros r Hr. rewrite (after_attempts_step e cid t m cfg rs w k r Hr). cbv zeta.
    rewrite result_triple.
    destruct (result (after_attempts e cid t m cfg rs w k)) as [s f]. simpl.
    apply loop_body_counts.
  - intros i p s f. apply background_writes_bounded.
  - rewrite send_loop_sum. reflexivity.
  - intros req c Ho H200 Hin Hid.
    now destruct (launch_counts_total e req w c Ho H200 Hin Hid).
Qed.

(* ================================================================== *)
(** * Progress checkpoints and the final write *)
(* ================================================================== *)

#[local] Arguments Nat.modulo : simpl never.

Lemma campaign_writes_app tr1 tr2 :
  campaign_writes (tr1 ++ tr2) = campaign_writes tr1 ++ campaign_writes tr2.
Proof.
  induction tr1 as [|ev tr1 IH]; [reflexivity|].
  destruct ev; simpl; now rewrite IH.
Qed.

Lemma mail_sends_app tr1 tr2 :
  mail_sends (tr1 ++ tr2) = mail_sends tr1 ++ mail_sends tr2.
Proof.
  induction tr1 as [|ev tr1 IH]; [reflexivity|].
  destruct ev; simpl; now rewrite IH.
Qed.

Lemma filter_head {A} (P : A -> bool) (a : A) (l : list A) :
  filter P (a :: l) = if P a then a :: filter P l else filter P l.
Proof. reflexivity. Qed.

Lemma filter_map_S (P : nat -> bool) (l : list nat) :
  filter P (map S l) = map S (filter (fun j => P (S j)) l).
Proof.
  induction l as [|a l IH]; [reflexivity|].
  simpl. destruct (P (S a)); simpl; now rewrite IH.
Qed.

(** The turns at which a write is due, counted from the next one. *)
Lemma writes_seq cid0 s f len :
  campaign_writes
    (if (s + 1 + f) mod 10 =? 0 then [UpdateCampaign cid0 (progress (s + 1) f)]
     else []) ++
  map (fun j => progress (s + 1 + j) f)
      (filter (fun j => (s + 1 + j + f) mod 10 =? 0) (seq 1 len)) =
  map (fun j => progress (s + j) f)
      (filter (fun j => (s + j + f) mod 10 =? 0) (seq 1 (S len))).
Proof.
  change (seq 1 (S len)) with (1 :: seq 2 len).
  rewrite <- (seq_shift len 1), filter_head, filter_map_S.
  rewrite (filter_ext (fun j => (s + S j + f) mod 10 =? 0)
                      (fun j => (s + 1 + j + f) mod 10 =? 0)).
  2:{ intros j. now replace (s + 1 + j) with (s + S j) by lia. }
  assert (E : forall l, map (fun j => progress (s + 1 + j) f) l =
                        map (fun x => progress (s + S x) f) l).
  { intros l. apply map_ext. intros j.
    now replace (s + 1 + j) with (s + S j) by lia. }
  destruct ((s + 1 + f) mod 10 =? 0); simpl; rewrite map_map, E; reflexivity.
Qed.

Section Checkpoints.

Variable e : env.
Variable cid : str.
Variable t : template.
Variable m : obj.
Variable cfg : option smtp_config.

Lemma attempt_campaign_writes n r c w :
  campaign_writes (trace (attempt e t m cfg n r c w)) = [].
Proof.
  destruct c as [s f]. rewrite attempt_eq.
  destruct (invoke_send_email e n (compose_email t m cfg r)); reflexivity.
Qed.

Hypothesis all_succeed : forall n d, invoke_send_email e n d = None.

(** When every send succeeds, the progress writes of the loop are those
    of the turns at which the number of attempts is a multiple of ten. *)
Lemma all_succeed_writes rs : forall n s f w,
  result (send_loop e cid t m cfg n rs (s, f) w) = (s + length rs, f) /\
  campaign_writes (trace (send_loop e cid t m cfg n rs (s, f) w)) =
  map (fun j => progress (s + j) f)
      (filter (fun j => (s + j + f) mod 10 =? 0) (seq 1 (length rs))).
Proof.
  induction rs as [|r rs IH]; intros n s f w.
  - simpl. unfold ret. rewrite result_triple. split; [f_equal; lia|reflexivity].
  - rewrite send_loop_cons. cbv zeta. rewrite result_triple, trace_triple.
    destruct (loop_body_cases e cid t m cfg n r s f w) as (s1 & f1 & E & _ & Ht).
    assert (E1 : (s1, f1) = (s + 1, f)).
    { rewrite <- E, loop_body_eq, result_triple, attempt_counts.
      now rewrite all_succeed. }
    inversion E1; subst s1 f1. rewrite E, Ht.
    destruct (IH (S n) (s + 1) f
                 (final (loop_body e cid t m cfg n r (s, f) w))) as [R W].
    rewrite R, !campaign_writes_app, W, attempt_campaign_writes.
    split; [simpl; f_equal; lia|].
    apply writes_seq.
Qed.

End Checkpoints.

(** When every send fails, only [failedCount] moves. *)
Lemma all_fail_counts e cid t m cfg :
  (forall n d, invoke_send_email e n d <> None) ->
  forall rs n s f w,
    result (send_loop e cid t m cfg n rs (s, f) w) = (s, f + length rs).
Proof.
  intros Hall rs. induction rs as [|r rs IH]; intros n s f w.
  - simpl. unfold ret. rewrite result_triple. f_equal. lia.
  - rewrite send_loop_cons. cbv zeta. rewrite result_triple.
    rewrite loop_body_eq, result_triple, attempt_counts.
    destruct (invoke_send_email e n (compose_email t m cfg r)) eqn:E.
    + rewrite IH. simpl. f_equal. lia.
    + now apply Hall in E.
Qed.

(** C7: progress checkpoints.  The turn of the loop for the recipient at
    position [k] appends to the trace the events of its attempt, none of
    which is a campaign write, followed by one write to the campaign
    exactly when the number of completed attempts, [k + 1], is a multiple
    of 10.  That write sets [sent_count] and [failed_count] to the current
    counters, which add up to [k + 1], and sets nothing else.  For 25
    recipients that all succeed, the campaign writes of the whole run are
    the checkpoint with sent=10 and failed=0, the checkpoint with sent=20
    and failed=0, and the final write with status completed, sent=25,
    failed=0 and a completion time. *)
Theorem checkpoint_every_ten e cid t m cfg rs w k r :
  nth_error rs k = Some r ->
  let before := after_attempts e cid t m cfg rs w k in
  let after := after_attempts e cid t m cfg rs w (S k) in
  let tried := attempt e t m cfg k r (result before) (final before) in
  let sentCount := fst (result after) in
  let failedCount := snd (result after) in
  trace after =
    trace before ++ trace tried ++
    (if S k mod 10 =? 0
     then [UpdateCampaign cid
             {| set_status := None;
                set_total_recipients := None;
                set_sent_count := Some sentCount;
                set_failed_count := Some failedCount;
                set_completed_at := None |}]
     else []) /\
  campaign_writes (trace tried) = [] /\
  sentCount + failedCount = S k /\
  (length rs = 25 -> (forall n d, invoke_send_email e n d = None) ->
   exists at_,
     campaign_writes (trace (sendEmailsInBackground e cid t rs m cfg w)) =
     [ {| set_status := None; set_total_recipients := None;
          set_sent_count := Some 10; set_failed_count := Some 0;
          set_completed_at := None |};
       {| set_status := None; set_total_recipients := None;
          set_sent_count := Some 20; set_failed_count := Some 0;
          set_completed_at := None |};
       {| set_status := Some completed; set_total_recipients := None;
          set_sent_count := Some 25; set_failed_count := Some 0;
          set_completed_at := Some (Some at_) |} ]).
Proof.
  intros Hr. cbv zeta.
  assert (Hk : S k <= length rs).
  { apply Nat.le_succ_l, nth_error_Some. congruence. }
  pose proof (after_attempts_sum e cid t m cfg rs w (S k) Hk) as Sum.
  repeat split.
  - rewrite (after_attempts_step e cid t m cfg rs w k r Hr) in *. cbv zeta in *.
    rewrite result_triple, trace_triple in *.
    destruct (result (after_attempts e cid t m cfg rs w k)) as [s f].
    destruct (loop_body_cases e cid t m cfg k r s f
                (final (after_attempts e cid t m cfg rs w k)))
      as (s1 & f1 & E & _ & Ht).
    rewrite E in *. simpl in Sum. rewrite Ht, Sum. reflexivity.
  - apply attempt_campaign_writes.
  - exact Sum.
  - intros Hlen Hall.
    rewrite sendEmailsInBackground_eq. cbv zeta. rewrite trace_triple.
    destruct (all_succeed_writes e cid t m cfg Hall rs 0 0 0 w) as [R W].
    rewrite campaign_writes_app, W, R, Hlen. simpl.
    eexists. reflexivity.
Qed.

(** C9: the final write.  A run is its loop followed by the final campaign
    update, which is one write to the campaign.  Whatever counters and
    number of recipients that update is given, the write carries the two
    counters; its status is [completed] when [sentCount + failedCount]
    equals the number of recipients and [paused] otherwise, and it sets the
    completion timestamp in the first case and clears it in the second.
    The counters a loop hands over add up to the number of recipients, so
    the last event of a run writes [completed] with the completion time;
    when every send fails that is still so, with no recipient sent and all
    of them failed. *)
Theorem final_write e cid t m cfg rs w :
  let x := send_loop e cid t m cfg 0 rs (0, 0) w in
  let s := fst (result x) in
  let f := snd (result x) in
  let last := final_campaign_update cid (length rs) (s, f) (final x) in
  final (sendEmailsInBackground e cid t rs m cfg w) = final last /\
  trace (sendEmailsInBackground e cid t rs m cfg w) = trace x ++ trace last /\
  (forall recipients_length sentCount failedCount w',
     let p := final_update (sentCount + failedCount =? recipients_length)
                sentCount failedCount (clock w') in
     let u := final_campaign_update cid recipients_length
                (sentCount, failedCount) w' in
     trace u = [UpdateCampaign cid p] /\
     final u = store_update_campaign cid p w' /\
     set_sent_count p = Some sentCount /\
     set_failed_count p = Some failedCount /\
     set_total_recipients p = None /\
     (sentCount + failedCount = recipients_length ->
      set_status p = Some completed /\
      set_completed_at p = Some (Some (clock w'))) /\
     (sentCount + failedCount <> recipients_length ->
      set_status p = Some paused /\ set_completed_at p = Some None)) /\
  s + f = length rs /\
  trace last =
    [UpdateCampaign cid
       {| set_status := Some completed; set_total_recipients := None;
          set_sent_count := Some s; set_failed_count := Some f;
          set_completed_at := Some (Some (clock (final x))) |}] /\
  ((forall n d, invoke_send_email e n d <> None) -> s = 0 /\ f = length rs).
Proof.
  cbv zeta. rewrite sendEmailsInBackground_eq. cbv zeta.
  pose proof (send_loop_sum e cid t m cfg rs 0 0 0 w) as Sum.
  cbn [Nat.add] in Sum.
  destruct (result (send_loop e cid t m cfg 0 rs (0, 0) w)) as [s f] eqn:R.
  cbn [fst snd] in *.
  rewrite final_campaign_update_eq, !final_triple, !trace_triple.
  split; [reflexivity|]. split; [reflexivity|]. split; [|split; [exact Sum|split]].
  - intros n sc fc w'. cbv zeta. rewrite final_campaign_update_eq.
    rewrite final_triple, trace_triple.
    do 5 (split; [reflexivity|]). split.
    + intros H. apply Nat.eqb_eq in H. now rewrite H.
    + intros H. apply Nat.eqb_neq in H. now rewrite H.
  - rewrite Sum, Nat.eqb_refl. reflexivity.
  - intros Hall.
    pose proof (all_fail_counts e cid t m cfg Hall rs 0 0 0 w) as E.
    rewrite R in E. inversion E. split; reflexivity.
Qed.

(* ================================================================== *)
(** * Delay, failed sends and recipient rows *)
(* ================================================================== *)

Section Sends.

Variable e : env.
Variable cid : str.
Variable t : template.
Variable m : obj.
Variable cfg : option smtp_config.

(** The delays of one turn of the loop: one after a successful send,
    none after a failed one. *)
Lemma loop_body_delays n r c w :
  filter is_delay (trace (loop_body e cid t m cfg n r c w)) =
  match invoke_send_email e n (compose_email t m cfg r) with
  | None => [Delay 1000]
  | Some _ => []
  end.
Proof.
  destruct c as [s f].
  destruct (loop_body_cases e cid t m cfg n r s f w) as (s1 & f1 & _ & _ & Ht).
  rewrite Ht, attempt_eq, filter_app.
  destruct (invoke_send_email e n (compose_email t m cfg r));
    rewrite trace_triple; destruct ((s1 + f1) mod 10 =? 0); reflexivity.
Qed.

(** The mail sender is called once per recipient, in input order, with
    the sender configuration as given. *)
Lemma send_loop_mail_sends rs : forall n c w,
  mail_sends (trace (send_loop e cid t m cfg n rs c w)) =
  map (compose_email t m cfg) rs.
Proof.
  induction rs as [|r rs IH]; intros n c w; [reflexivity|].
  rewrite send_loop_cons. cbv zeta. rewrite trace_triple, mail_sends_app, IH.
  destruct c as [s f].
  destruct (loop_body_cases e cid t m cfg n r s f w) as (s1 & f1 & _ & _ & Ht).
  rewrite Ht, attempt_eq, mail_sends_app.
  destruct (invoke_send_email e n (compose_email t m cfg r));
    rewrite trace_triple; destruct ((s1 + f1) mod 10 =? 0); reflexivity.
Qed.

Lemma background_mail_sends rs w :
  mail_sends (trace (sendEmailsInBackground e cid t rs m cfg w)) =
  map (compose_email t m cfg) rs.
Proof.
  rewrite sendEmailsInBackground_eq. cbv zeta.
  rewrite trace_triple, mail_sends_app, send_loop_mail_sends. simpl.
  apply app_nil_r.
Qed.

(** A recipient object without [id] selects no row of [recipients]. *)
Lemma attempt_recipients n r c w :
  id r = None ->
  recipients (final (attempt e t m cfg n r c w)) = recipients w.
Proof.
  intros H. destruct c as [s f]. rewrite attempt_eq, H.
  destruct (invoke_send_email e n (compose_email t m cfg r)); reflexivity.
Qed.

Lemma loop_body_recipients n r c w :
  id r = None ->
  recipients (final (loop_body e cid t m cfg n r c w)) = recipients w.
Proof.
  intros H. rewrite loop_body_eq, final_triple.
  destruct (result (attempt e t m cfg n r c w)) as [s1 f1].
  rewrite checkpoint_eq.
  destruct ((s1 + f1) mod 10 =? 0); rewrite final_triple; simpl;
    now apply attempt_recipients.
Qed.

Lemma send_loop_recipients rs : forall n c w,
  Forall (fun r => id r = None) rs ->
  recipients (final (send_loop e cid t m cfg n rs c w)) = recipients w.
Proof.
  induction rs as [|r rs IH]; intros n c w H; [reflexivity|].
  inversion H; subst.
  rewrite send_loop_cons. cbv zeta. rewrite final_triple, IH by assumption.
  now apply loop_body_recipients.
Qed.

Lemma background_recipients rs w :
  Forall (fun r => id r = None) rs ->
  recipients (final (sendEmailsInBackground e cid t rs m cfg w)) = recipients w.
Proof.
  intros H. rewrite sendEmailsInBackground_eq. cbv zeta.
  rewrite final_triple. simpl. now apply send_loop_recipients.
Qed.

End Sends.

Lemma recipient_marks_app tr1 tr2 :
  recipient_marks (tr1 ++ tr2) = recipient_marks tr1 ++ recipient_marks tr2.
Proof.
  induction tr1 as [|ev tr1 IH]; [reflexivity|].
  destruct ev; simpl; now rewrite IH.
Qed.

(** The loop issues one status update per recipient, in input order; the
    update for a recipient is decided by the answer of the mail sender for
    that recipient alone. *)
Lemma send_loop_marks e cid t m cfg rs : forall n c w,
  recipient_marks (trace (send_loop e cid t m cfg n rs c w)) =
  marks_from e t m cfg n rs.
Proof.
  induction rs as [|r rs IH]; intros n c w; [reflexivity|].
  rewrite send_loop_cons. cbv zeta.
  rewrite trace_triple, recipient_marks_app, IH.
  destruct c as [s f].
  destruct (loop_body_cases e cid t m cfg n r s f w) as (s1 & f1 & _ & _ & Ht).
  rewrite Ht, attempt_eq, recipient_marks_app. cbn [marks_from]. unfold mark_of.
  destruct (invoke_send_email e n (compose_email t m cfg r));
    rewrite trace_triple; destruct ((s1 + f1) mod 10 =? 0); reflexivity.
Qed.

Lemma marks_from_nth e t m cfg : forall rs n j r,
  nth_error rs j = Some r ->
  nth_error (marks_from e t m cfg n rs) j = Some (mark_of e t m cfg (n + j) r).
Proof.
  induction rs as [|r0 rs IH]; intros n [|j] r H; simpl in H; try discriminate.
  - inversion H; subst. cbn [marks_from nth_error]. now rewrite Nat.add_0_r.
  - cbn [marks_from nth_error]. rewrite (IH (S n) j r H).
    now replace (S n + j) with (n + S j) by lia.
Qed.

(** The update issued for a recipient does not depend on the answers of
    the mail sender for the other recipients. *)
Lemma failure_is_isolated e1 e2 cid t m cfg rs w j r :
  nth_error rs j = Some r ->
  invoke_send_email e1 j (compose_email t m cfg r) =
  invoke_send_email e2 j (compose_email t m cfg r) ->
  nth_error (recipient_marks
               (trace (send_loop e1 cid t m cfg 0 rs (0, 0) w))) j =
  nth_error (recipient_marks
               (trace (send_loop e2 cid t m cfg 0 rs (0, 0) w))) j.
Proof.
  intros H E. rewrite !send_loop_marks, !(marks_from_nth _ _ _ _ _ _ _ _ H).
  unfold mark_of. simpl. now rewrite E.
Qed.

(** The recipient objects [handler] builds carry no [id]. *)
Lemma new_recipients_no_id cid user mappings rows :
  Forall (fun r => id r = None) (map (new_recipient cid user mappings) rows).
Proof. apply Forall_forall. intros r H. apply in_map_iff in H. now destruct H as (x & <- & _). Qed.

(** Whatever the outcome of the sends, the background run of a launch
    leaves every row of [recipients] as [handler] inserted it. *)
Lemma launch_recipients e req w :
  recipients (final (launch e req w)) = recipients (final (handler e req w)).
Proof.
  rewrite launch_eq. cbv zeta.
  destruct (snd (result (handler e req w))) as [b|] eqn:Hb; [|reflexivity].
  rewrite final_triple.
  unfold handler in *.
  destruct (is_options req); [discriminate|].
  destruct (negb _); [discriminate|].
  destruct (getUser e _) as [user|]; [|discriminate].
  unfold bind, insert_recipients, activate_campaign, ret in *.
  destruct (recipientsError e); [discriminate|].
  destruct (campaignUpdateError e); [discriminate|].
  rewrite result_triple in Hb. simpl in Hb. inversion Hb; subst b.
  rewrite final_triple.
  apply background_recipients, new_recipients_no_id.
Qed.

(** C5, at the failing input: two recipients, the send to the first one
    fails.  The run goes from the failed attempt straight to the next
    send; the only delay of the run follows the successful send. *)
Theorem no_delay_after_failed_send :
  let run := sendEmailsInBackground (Sample.service (Sample.fail_at 0)) (js "c1")
               Sample.greeting (firstn 2 Sample.three) Sample.mappings
               (Some Sample.sender) Sample.w0 in
  exists first second last,
    trace run =
      [InvokeSendEmail first;
       UpdateRecipient None (mark_failed (js "boom"));
       InvokeSendEmail second;
       UpdateRecipient None (mark_sent 0);
       Delay 1000;
       UpdateCampaign (js "c1") last] /\
    to first = Some (js "ana@x.org") /\ to second = Some (js "bob@x.org").
Proof. cbv zeta. do 3 eexists. split; [vm_compute; reflexivity|]. split; reflexivity. Qed.

(** C8, at the failing input: a launch of three rows where the send to the
    second recipient fails.  All three sends are attempted and the update
    that marks the failure is issued, but it selects rows by
    [recipient.id], which the recipient objects do not have: every stored
    recipient is still [pending] without error message when the run is
    over, while the campaign counts one failure. *)
Theorem failed_recipient_not_marked :
  let run := launch (Sample.service (Sample.fail_at 1))
               (Sample.request_with Sample.rows (Some Sample.sender)) Sample.w0 in
  http_status (result run) = 200 /\
  length (mail_sends (trace run)) = 3 /\
  In (UpdateRecipient None (mark_failed (js "boom"))) (trace run) /\
  map (fun r => (row_email r, row_status r, error_message r)) (recipients (final run)) =
    [(Some (js "ana@x.org"), pending, None);
     (Some (js "bob@x.org"), pending, None);
     (Some (js "eve@x.org"), pending, None)] /\
  map (fun c => (c_status c, sent_count c, failed_count c)) (campaigns (final run)) =
    [(completed, 2, 1)].
Proof.
  cbv zeta. split; [reflexivity|]. split; [reflexivity|].
  split; [vm_compute; tauto|]. split; reflexivity.
Qed.
(* ================================================================== *)
(** * The launch handler, case by case *)
(* ================================================================== *)

Ltac triples :=
  repeat (progress (rewrite ?result_triple, ?final_triple, ?trace_triple;
                    cbn [fst snd])).

Lemma handler_unauthorized e req w :
  is_options req = false ->
  (truthy (bearer_token req) = false \/
   getUser e (or_str (bearer_token req) []) = None) ->
  handler e req w =
  ((failure (if truthy (bearer_token req)
             then "Invalid authorization token"
             else "Authorization token required"), None), w, []).
Proof.
  intros Ho H. unfold handler, bearer_token in *. rewrite Ho.
  destruct (truthy (option_map (remove_first (js "Bearer ")) (authorization req)));
    cbn [negb]; [|reflexivity].
  destruct H as [H|H]; [discriminate|]. now rewrite H.
Qed.

(** What [handler] does once the token is accepted, by the answers of the
    store. *)
Lemma handler_authorized e req w user :
  is_options req = false ->
  truthy (bearer_token req) = true ->
  getUser e (or_str (bearer_token req) []) = Some user ->
  let cd := campaignData req in
  let rs := map (new_recipient (campaignId req) user (placeholderMappings cd))
                (csvData cd) in
  let n := length (csvData cd) in
  handler e req w =
  if recipientsError e then
    ((failure "Failed to insert recipients", None), w, [InsertRecipients rs])
  else if campaignUpdateError e then
    ((failure "Failed to update campaign", None),
     store_insert_recipients (new_row_id e) rs w,
     [InsertRecipients rs; UpdateCampaign (campaignId req) (activate n)])
  else
    (({| http_status := 200; payload := started (campaignId req) n |},
      Some (sendEmailsInBackground e (campaignId req) (cd_template cd) rs
              (placeholderMappings cd) (smtpConfig cd))),
     store_update_campaign (campaignId req) (activate n)
       (store_insert_recipients (new_row_id e) rs w),
     [InsertRecipients rs; UpdateCampaign (campaignId req) (activate n)]).
Proof.
  intros Ho Ht Hu. cbv zeta. unfold handler, bearer_token in *.
  rewrite Ho, Ht, Hu. cbn [negb].
  unfold bind, insert_recipients, activate_campaign, ret.
  destruct (recipientsError e); [reflexivity|].
  destruct (campaignUpdateError e); reflexivity.
Qed.

Lemma fresh_rows_length new_id : forall rs n,
  length (fresh_rows new_id n rs) = length rs.
Proof.
  induction rs as [|r rs IH]; intros n; [reflexivity|].
  cbn [fresh_rows length]. now rewrite IH.
Qed.

Lemma fresh_rows_nth new_id : forall rs n j r,
  nth_error rs j = Some r ->
  nth_error (fresh_rows new_id n rs) j =
  Some {| row_id := new_id (n + j);
          row_campaign_id := campaign_id r;
          row_user_id := user_id r;
          row_email := email r;
          row_status := status r;
          row_data := data r;
          error_message := None;
          sent_at := None |}.
Proof.
  induction rs as [|r0 rs IH]; intros n [|j] r H; simpl in H; try discriminate.
  - inversion H; subst. cbn [fresh_rows nth_error]. now rewrite Nat.add_0_r.
  - cbn [fresh_rows nth_error]. rewrite (IH (S n) j r H).
    now replace (S n + j) with (n + S j) by lia.
Qed.



(* ================================================================== *)
(** * The launch handler *)
(* ================================================================== *)







(* ================================================================== *)
(** * Rendering *)
(* ================================================================== *)

(** The scenarios of the specification: a mapped placeholder with a value,
    and an empty mapping. *)
Example render_mapped :
  fst (personalize {| subject := js "Hi {{name}}"; body := [] |}
         [(js "{{name}}", js "firstName")] [(js "firstName", js "Ana")])
  = js "Hi Ana".
Proof. reflexivity. Qed.

Example render_unmapped :
  fst (personalize {| subject := js "Hi {{name}}"; body := [] |} []
         [(js "firstName", js "Ana")])
  = js "Hi {{name}}".
Proof. reflexivity. Qed.

(** A value is a replacement pattern for [replace]: [$&], [$`], [$'] and
    [$$] in it are expanded, [$1] is not. *)
Example render_dollar :
  RegExp.replace_placeholder (js "{{n}}") (js "a{{n}}b") (js "[$&|$`|$'|$$|$1]")
  = js "a[{{n}}|a|b|$|$1]b".
Proof. reflexivity. Qed.

(** A pattern made of regular-expression operators is matched as text. *)
Example render_operators :
  RegExp.replace_placeholder (js "(.*)+") (js "x(.*)+y.*") (js "-") = js "x-y.*".
Proof. reflexivity. Qed.



(** C2, as stated, does not hold of [personalize]: the subject [{{a}}],
    whose value for the recipient is the text [{{b}}], is not rendered as
    that text; the entry for [{{b}}], applied next, substitutes it. *)
Lemma value_substituted_again :
  let t := {| subject := js "{{a}}"; body := [] |} in
  let mappings := [(js "{{a}}", js "x"); (js "{{b}}", js "y")] in
  let recipient_data := [(js "x", js "{{b}}"); (js "y", js "Z")] in
  get recipient_data (js "x") = Some (js "{{b}}") /\
  fst (personalize t mappings recipient_data) = js "Z" /\
  ~ inserts_values_verbatim.
Proof.
  cbv zeta. do 2 (split; [reflexivity|]).
  intros H.
  specialize (H {| subject := js "{{a}}"; body := [] |}
                [(js "{{a}}", js "x"); (js "{{b}}", js "y")]
                [(js "x", js "{{b}}"); (js "y", js "Z")]
                (js "x") (js "{{b}}") eq_refl eq_refl).
  assert (E : fst (personalize {| subject := js "{{a}}"; body := [] |}
                     [(js "{{a}}", js "x"); (js "{{b}}", js "y")]
                     [(js "x", js "{{b}}"); (js "y", js "Z")]) = js "Z")
    by reflexivity.
  rewrite E in H.
  assert (F : js "Z" = js "{{b}}"); [|discriminate F].
  apply H; try discriminate.
  intros k c [K|[K|[]]] Hk; inversion K; subst;
    [exfalso; apply Hk; reflexivity|reflexivity].
Qed.

(** C2, amended: the pattern built from a placeholder matches the
    placeholder as it is written, never as a regular expression.  The
    mapping entries are applied one after the other, in their order; when
    the placeholders are not empty and the recipient's values contain no
    [$], each entry replaces every occurrence of its placeholder in the
    current subject and in the current body by the recipient's value as it
    is (the empty string when the recipient has none), the occurrences
    being taken from left to right without overlap.  A value inserted by an
    entry is part of the text the later entries work on.  The rendered
    subject and body are determined by this. *)
Theorem values_replace_tokens t mappings recipient_data :
  (forall placeholder col,
     In (placeholder, col) mappings ->
     placeholder <> [] /\
     ~ In RegExp.dollar (or_str (get recipient_data col) [])) ->
  (forall placeholder, RegExp.compile (RegExp.escape placeholder) = Some placeholder) /\
  rendered recipient_data mappings (subject t)
    (fst (personalize t mappings recipient_data)) /\
  rendered recipient_data mappings (body t)
    (snd (personalize t mappings recipient_data)) /\
  (forall out,
     rendered recipient_data mappings (subject t) out ->
     out = fst (personalize t mappings recipient_data)) /\
  (forall out,
     rendered recipient_data mappings (body t) out ->
     out = snd (personalize t mappings recipient_data)).
Proof.
  intros H. split; [exact compile_escape|].
  destruct (fold_rendered recipient_data mappings (subject t) (body t) H)
    as [R1 R2].
  split; [exact R1|]. split; [exact R2|].
  split; intros out Ho; symmetry.
  - exact (rendered_unique _ _ _ _ R1 _ Ho).
  - exact (rendered_unique _ _ _ _ R2 _ Ho).
Qed.

(* ================================================================== *)
(** * The statements at sample data *)
(* ================================================================== *)

(** Three recipients, the send to the second one fails: after two attempts
    the counters add up to two, the third attempt moves one of them, the
    final write is within the total, and the stored row adds up. *)
Lemma counter_invariant_witness :
  let e := Sample.service (Sample.fail_at 1) in
  let run k := result (after_attempts e (js "c1") Sample.greeting Sample.mappings
                         (Some Sample.sender) Sample.three Sample.w0 k) in
  let req := Sample.request_with Sample.rows (Some Sample.sender) in
  2 <= length Sample.three /\
  (fst (run 2) + snd (run 2) = 2 /\ fst (run 2) + snd (run 2) <= 3) /\
  (run 3 = (fst (run 2) + 1, snd (run 2)) \/
   run 3 = (fst (run 2), snd (run 2) + 1)) /\
  2 + 1 <= 3 /\
  (forall c, In c (campaigns (final (launch e req Sample.w0))) ->
             c_id c = js "c1" ->
             sent_count c + failed_count c = total_recipients c).
Proof.
  cbv zeta.
  assert (H : 2 <= length Sample.three) by (apply le_S, le_n).
  destruct (counter_invariant (Sample.service (Sample.fail_at 1)) (js "c1")
              Sample.greeting Sample.mappings (Some Sample.sender)
              Sample.three Sample.w0 2 H) as (T1 & T2 & T3 & _ & T5).
  split; [exact H|]. split; [exact T1|].
  split; [exact (T2 (new_recipient (js "c1") (js "u1") Sample.mappings
                       [(js "email", js "eve@x.org"); (js "firstName", js "Eve")])
                    eq_refl)|].
  split.
  - refine (T3 (js "c1") (final_update true 2 1 2000) 2 1 _ eq_refl eq_refl).
    vm_compute. tauto.
  - intros c Hin Hid.
    exact (T5 (Sample.request_with Sample.rows (Some Sample.sender)) c
              eq_refl eq_refl Hin Hid).
Defined.

(** Twenty-five recipients, every send succeeds. *)
Lemma checkpoint_every_ten_witness :
  let e := Sample.service Sample.always_ok in
  let r := new_recipient (js "c1") (js "u1") Sample.mappings
             [(js "email", js "ana@x.org"); (js "firstName", js "Ana")] in
  let after := after_attempts e (js "c1") Sample.greeting Sample.mappings
                 (Some Sample.sender) (Sample.many 25) Sample.w0 10 in
  nth_error (Sample.many 25) 9 = Some r /\
  length (Sample.many 25) = 25 /\
  (forall n d, invoke_send_email e n d = None) /\
  result after = (10, 0) /\
  (exists earlier,
     trace after =
     earlier ++
     [UpdateCampaign (js "c1")
        {| set_status := None; set_total_recipients := None;
           set_sent_count := Some 10; set_failed_count := Some 0;
           set_completed_at := None |}]) /\
  exists at_,
    campaign_writes
      (trace (sendEmailsInBackground e (js "c1") Sample.greeting (Sample.many 25)
                Sample.mappings (Some Sample.sender) Sample.w0)) =
    [ {| set_status := None; set_total_recipients := None;
         set_sent_count := Some 10; set_failed_count := Some 0;
         set_completed_at := None |};
      {| set_status := None; set_total_recipients := None;
         set_sent_count := Some 20; set_failed_count := Some 0;
         set_completed_at := None |};
      {| set_status := Some completed; set_total_recipients := None;
         set_sent_count := Some 25; set_failed_count := Some 0;
         set_completed_at := Some (Some at_) |} ].
Proof.
  cbv zeta.
  destruct (checkpoint_every_ten (Sample.service Sample.always_ok) (js "c1")
              Sample.greeting Sample.mappings (Some Sample.sender)
              (Sample.many 25) Sample.w0 9 _ eq_refl) as (T1 & _ & _ & T4).
  split; [reflexivity|]. split; [reflexivity|].
  split; [intros n d; reflexivity|]. split; [reflexivity|].
  split.
  - eexists. rewrite T1, app_assoc. reflexivity.
  - exact (T4 eq_refl (fun n d => eq_refl)).
Defined.

(** Three recipients, every send fails; and the final campaign update at
    counters that do not add up to the number of recipients. *)
Lemma final_write_witness :
  let e := Sample.service Sample.always_fail in
  let run := sendEmailsInBackground e (js "c1") Sample.greeting Sample.three
               Sample.mappings (Some Sample.sender) Sample.w0 in
  let short := final_campaign_update (js "c1") 3 (1, 1) Sample.w0 in
  (forall n d, invoke_send_email e n d <> None) /\
  (exists loop,
     trace run =
     loop ++
     [UpdateCampaign (js "c1")
        {| set_status := Some completed; set_total_recipients := None;
           set_sent_count := Some 0; set_failed_count := Some 3;
           set_completed_at := Some (Some 0) |}]) /\
  1 + 1 <> 3 /\
  trace short =
    [UpdateCampaign (js "c1")
       (final_update (1 + 1 =? 3) 1 1 (clock Sample.w0))] /\
  set_status (final_update (1 + 1 =? 3) 1 1 (clock Sample.w0)) = Some paused /\
  set_completed_at (final_update (1 + 1 =? 3) 1 1 (clock Sample.w0)) = Some None /\
  set_sent_count (final_update (1 + 1 =? 3) 1 1 (clock Sample.w0)) = Some 1 /\
  set_failed_count (final_update (1 + 1 =? 3) 1 1 (clock Sample.w0)) = Some 1 /\
  2 + 1 = 3 /\
  set_status (final_update (2 + 1 =? 3) 2 1 (clock Sample.w0)) = Some completed /\
  set_completed_at (final_update (2 + 1 =? 3) 2 1 (clock Sample.w0)) =
    Some (Some (clock Sample.w0)).
Proof.
  cbv zeta.
  assert (Hall : forall n d,
             invoke_send_email (Sample.service Sample.always_fail) n d <> None)
    by (intros n d; discriminate).
  assert (Hne : 1 + 1 <> 3) by discriminate.
  destruct (final_write (Sample.service Sample.always_fail) (js "c1")
              Sample.greeting Sample.mappings (Some Sample.sender)
              Sample.three Sample.w0) as (_ & T2 & T3 & _ & T5 & T6).
  destruct (T6 Hall) as (S0 & F3).
  destruct (T3 3 1 1 Sample.w0) as (U1 & _ & U3 & U4 & _ & _ & U7).
  destruct (U7 Hne) as (P1 & P2).
  destruct (T3 3 2 1 Sample.w0) as (_ & _ & _ & _ & _ & V6 & _).
  destruct (V6 eq_refl) as (Q1 & Q2).
  split; [exact Hall|]. split.
  - eexists. rewrite T2, T5, S0, F3. reflexivity.
  - split; [exact Hne|]. split; [exact U1|]. split; [exact P1|].
    split; [exact P2|]. split; [exact U3|]. split; [exact U4|].
    split; [reflexivity|]. split; [exact Q1|exact Q2].
Defined.




(** The greeting rendered for a recipient named Ana. *)
Lemma values_replace_tokens_witness :
  let recipient_data := [(js "email", js "ana@x.org"); (js "firstName", js "Ana")] in
  (forall placeholder col,
     In (placeholder, col) Sample.mappings ->
     placeholder <> [] /\
     ~ In RegExp.dollar (or_str (get recipient_data col) [])) /\
  rendered recipient_data Sample.mappings (js "Hi {{name}}") (js "Hi Ana") /\
  rendered recipient_data Sample.mappings (js "Dear {{name}}, welcome.")
           (js "Dear Ana, welcome.").
Proof.
  cbv zeta.
  assert (H : forall placeholder col,
             In (placeholder, col) Sample.mappings ->
             placeholder <> [] /\
             ~ In RegExp.dollar
                  (or_str (get [(js "email", js "ana@x.org"); (js "firstName", js "Ana")]
                               col) [])).
  { intros placeholder col [E|[]]. inversion E; subst. split; [discriminate|].
    intros [F|[F|[F|[]]]]; discriminate. }
  destruct (values_replace_tokens Sample.greeting Sample.mappings
              [(js "email", js "ana@x.org"); (js "firstName", js "Ana")] H)
    as (_ & R1 & R2 & _).
  split; [exact H|]. split; [exact R1|exact R2].
Defined.

(* ================================================================== *)
(** * Further properties of the launch handler *)
(* ================================================================== *)

(** X1: a launch whose authorization header is missing, yields an empty
    token or carries a token the auth service does not know is answered
    with 500 and the matching message; the store is not called, nothing is
    sent and the world is left as it was. *)
Theorem launch_rejects_bad_token e req w :
  is_options req = false ->
  (truthy (bearer_token req) = false \/
   getUser e (or_str (bearer_token req) []) = None) ->
  result (launch e req w) =
    failure (if truthy (bearer_token req)
             then "Invalid authorization token"
             else "Authorization token required") /\
  trace (launch e req w) = [] /\
  final (launch e req w) = w.
Proof.
  intros Ho H. pose proof (handler_unauthorized e req w Ho H) as E.
  rewrite launch_eq. cbv zeta. rewrite E.
  triples. repeat split.
Qed.

(** X2: store failures during a launch.  When the insert of the recipients
    fails the launch is answered with 500, nothing is stored and the
    campaign is not written.  When the insert succeeds and the campaign
    update fails the launch is answered with 500 as well, but the inserted
    recipient rows stay in the store, one per CSV row, while the campaign
    rows are unchanged; in both cases nothing is sent. *)
Theorem launch_store_failures e req w user :
  is_options req = false ->
  truthy (bearer_token req) = true ->
  getUser e (or_str (bearer_token req) []) = Some user ->
  (recipientsError e = true ->
   result (launch e req w) = failure "Failed to insert recipients" /\
   final (launch e req w) = w /\
   campaign_writes (trace (launch e req w)) = [] /\
   mail_sends (trace (launch e req w)) = []) /\
  (recipientsError e = false -> campaignUpdateError e = true ->
   result (launch e req w) = failure "Failed to update campaign" /\
   length (recipients (final (launch e req w))) =
     length (recipients w) + length (csvData (campaignData req)) /\
   campaigns (final (launch e req w)) = campaigns w /\
   mail_sends (trace (launch e req w)) = []).
Proof.
  intros Ho Ht Hu.
  pose proof (handler_authorized e req w user Ho Ht Hu) as E. cbv zeta in E.
  split.
  - intros Hi. rewrite Hi in E. rewrite launch_eq. cbv zeta. rewrite E.
    triples. repeat split.
  - intros Hi Hc. rewrite Hi, Hc in E. rewrite launch_eq. cbv zeta. rewrite E.
    triples. repeat split.
    cbn [recipients store_insert_recipients].
    now rewrite length_app, fresh_rows_length, length_map.
Qed.

(** The state [handler] leaves when it accepts a launch. *)
Lemma accepted_world e req w user :
  is_options req = false ->
  truthy (bearer_token req) = true ->
  getUser e (or_str (bearer_token req) []) = Some user ->
  recipientsError e = false -> campaignUpdateError e = false ->
  let cd := campaignData req in
  let rs := map (new_recipient (campaignId req) user (placeholderMappings cd))
                (csvData cd) in
  launch e req w =
  ({| http_status := 200;
      payload := started (campaignId req) (length (csvData cd)) |},
   final (sendEmailsInBackground e (campaignId req) (cd_template cd) rs
            (placeholderMappings cd) (smtpConfig cd)
            (store_update_campaign (campaignId req)
               (activate (length (csvData cd)))
               (store_insert_recipients (new_row_id e) rs w))),
   [InsertRecipients rs;
    UpdateCampaign (campaignId req) (activate (length (csvData cd)))] ++
   trace (sendEmailsInBackground e (campaignId req) (cd_template cd) rs
            (placeholderMappings cd) (smtpConfig cd)
            (store_update_campaign (campaignId req)
               (activate (length (csvData cd)))
               (store_insert_recipients (new_row_id e) rs w)))).
Proof.
  intros Ho Ht Hu Hi Hc. cbv zeta.
  pose proof (handler_authorized e req w user Ho Ht Hu) as E. cbv zeta in E.
  rewrite Hi, Hc in E. rewrite launch_eq. cbv zeta. rewrite E.
  triples. reflexivity.
Qed.

(** The recipient rows after an accepted launch. *)
Lemma accepted_recipients e req w user :
  is_options req = false ->
  truthy (bearer_token req) = true ->
  getUser e (or_str (bearer_token req) []) = Some user ->
  recipientsError e = false -> campaignUpdateError e = false ->
  recipients (final (launch e req w)) =
  recipients w ++
  fresh_rows (new_row_id e) (length (recipients w))
    (map (new_recipient (campaignId req) user
            (placeholderMappings (campaignData req)))
         (csvData (campaignData req))).
Proof.
  intros Ho Ht Hu Hi Hc. rewrite launch_recipients.
  pose proof (handler_authorized e req w user Ho Ht Hu) as E. cbv zeta in E.
  rewrite Hi, Hc in E. rewrite E, final_triple. reflexivity.
Qed.

(** X3: the rows of an accepted launch.  The response carries the number
    of CSV rows; the recipient rows that were in the store are still there,
    unchanged and in front, followed by one new row per CSV row, in input
    order; the new row for a CSV row holds the row as its data, the
    campaign and the user, the resolved address, and is [pending] with no
    error message and no sent time, also when the run is over. *)
Theorem accepted_launch_rows e req w user :
  is_options req = false ->
  truthy (bearer_token req) = true ->
  getUser e (or_str (bearer_token req) []) = Some user ->
  recipientsError e = false -> campaignUpdateError e = false ->
  let cd := campaignData req in
  result (launch e req w) =
    {| http_status := 200;
       payload := started (campaignId req) (length (csvData cd)) |} /\
  firstn (length (recipients w)) (recipients (final (launch e req w))) =
    recipients w /\
  length (recipients (final (launch e req w))) =
    length (recipients w) + length (csvData cd) /\
  (forall j row,
     nth_error (csvData cd) j = Some row ->
     nth_error (recipients (final (launch e req w))) (length (recipients w) + j) =
     Some {| row_id := new_row_id e (length (recipients w) + j);
             row_campaign_id := campaignId req;
             row_user_id := user;
             row_email := resolve_email (placeholderMappings cd) row;
             row_status := pending;
             row_data := row;
             error_message := None;
             sent_at := None |}).
Proof.
  intros Ho Ht Hu Hi Hc. cbv zeta.
  assert (R : recipients (final (launch e req w)) =
              recipients w ++
              fresh_rows (new_row_id e) (length (recipients w))
                (map (new_recipient (campaignId req) user
                        (placeholderMappings (campaignData req)))
                     (csvData (campaignData req)))).
  { now apply accepted_recipients. }
  split.
  { pose proof (accepted_world e req w user Ho Ht Hu Hi Hc) as E. cbv zeta in E.
    now rewrite E, result_triple. }
  rewrite R. split; [|split].
  - rewrite firstn_app, Nat.sub_diag, firstn_all. cbn [firstn]. apply app_nil_r.
  - now rewrite length_app, fresh_rows_length, length_map.
  - intros j row Hj.
    rewrite nth_error_app2 by lia.
    replace (length (recipients w) + j - length (recipients w)) with j by lia.
    rewrite (fresh_rows_nth (new_row_id e) _ (length (recipients w)) j
               (new_recipient (campaignId req) user
                  (placeholderMappings (campaignData req)) row)).
    + reflexivity.
    + now rewrite nth_error_map, Hj.
Qed.

(** X4: the sends of an accepted launch.  The mail sender is called once
    per CSV row, in input order; the call for a row goes to the resolved
    address of the row and carries the subject and the body personalized
    with the row, and the sender configuration of the request. *)
Theorem launch_sends_in_order e req w user :
  is_options req = false ->
  truthy (bearer_token req) = true ->
  getUser e (or_str (bearer_token req) []) = Some user ->
  recipientsError e = false -> campaignUpdateError e = false ->
  let cd := campaignData req in
  mail_sends (trace (launch e req w)) =
  map (fun row =>
         {| to := resolve_email (placeholderMappings cd) row;
            e_subject := fst (personalize (cd_template cd) (placeholderMappings cd) row);
            html := snd (personalize (cd_template cd) (placeholderMappings cd) row);
            smtp := smtpConfig cd |})
      (csvData cd).
Proof.
  intros Ho Ht Hu Hi Hc. cbv zeta.
  pose proof (accepted_world e req w user Ho Ht Hu Hi Hc) as E. cbv zeta in E.
  rewrite E, trace_triple, mail_sends_app, background_mail_sends.
  cbn [mail_sends app]. rewrite map_map. apply map_ext.
  intros row. unfold compose_email, new_recipient. cbn [data email].
  now destruct (personalize _ _ row).
Qed.

Lemma remove_first_found p x :
  startsWith p x = true -> remove_first p x = skipn (length p) x.
Proof. intros H. destruct x; cbn [remove_first]; now rewrite H. Qed.

Lemma remove_first_prefix p s : remove_first p (p ++ s) = s.
Proof.
  rewrite remove_first_found by apply startsWith_app.
  rewrite skipn_app, skipn_all, Nat.sub_diag. reflexivity.
Qed.

Lemma remove_first_absent p : forall s,
  includes p s = false -> remove_first p s = s.
Proof.
  induction s as [|c s IH]; intros H; cbn [includes remove_first] in *;
    apply orb_false_iff in H; destruct H as [H1 H2]; rewrite H1.
  - reflexivity.
  - now rewrite (IH H2).
Qed.

(** X23: the token of the request.  For a header ["Bearer "] followed by
    a non-empty token, the user is looked up with exactly that token, and a
    token the auth service does not know is rejected as invalid.  A header
    that does not contain ["Bearer "] is used as the token as it is: so is
    the header ["Bearer"] without a token, which is rejected as invalid
    when the auth service does not know the token ["Bearer"]. *)
Theorem bearer_prefix_stripped e req w tok :
  is_options req = false ->
  tok <> [] ->
  authorization req = Some (js "Bearer " ++ tok) ->
  bearer_token req = Some tok /\
  (getUser e tok = None ->
   result (launch e req w) = failure "Invalid authorization token") /\
  (forall req' header,
     authorization req' = Some header ->
     includes (js "Bearer ") header = false ->
     bearer_token req' = Some header) /\
  (forall req' w',
     is_options req' = false ->
     authorization req' = Some (js "Bearer") ->
     getUser e (js "Bearer") = None ->
     result (launch e req' w') = failure "Invalid authorization token").
Proof.
  intros Ho Hne Ha.
  assert (B : bearer_token req = Some tok).
  { unfold bearer_token. rewrite Ha. cbn [option_map].
    now rewrite remove_first_prefix. }
  assert (Invalid : forall r v x,
             is_options r = false -> bearer_token r = Some x -> x <> [] ->
             getUser e x = None ->
             result (launch e r v) = failure "Invalid authorization token").
  { intros r v x Hr Hb Hx Hu.
    assert (T : truthy (bearer_token r) = true)
      by (rewrite Hb; destruct x; [congruence|reflexivity]).
    assert (H : truthy (bearer_token r) = false \/
                getUser e (or_str (bearer_token r) []) = None).
    { right. rewrite Hb. destruct x; [congruence|exact Hu]. }
    rewrite launch_eq. cbv zeta. rewrite (handler_unauthorized e r v Hr H).
    triples. now rewrite T. }
  split; [exact B|]. split; [|split].
  - intros Hu. exact (Invalid req w tok Ho B Hne Hu).
  - intros req' header Hh Hi. unfold bearer_token. rewrite Hh.
    cbn [option_map]. now rewrite (remove_first_absent _ _ Hi).
  - intros req' w' Ho' Hh Hu.
    apply (Invalid req' w' (js "Bearer")); auto; [|discriminate].
    unfold bearer_token. rewrite Hh. reflexivity.
Qed.

(** X24: launching twice.  A launch does not look at what an earlier
    launch of the same campaign stored: when the same request is accepted a
    second time, the rows of the first launch are still in the store and
    one more row per CSV row is appended, so that every CSV row is stored
    twice. *)
Theorem relaunch_appends_rows_again e req w user :
  is_options req = false ->
  truthy (bearer_token req) = true ->
  getUser e (or_str (bearer_token req) []) = Some user ->
  recipientsError e = false -> campaignUpdateError e = false ->
  let w1 := final (launch e req w) in
  let w2 := final (launch e req w1) in
  let n := length (csvData (campaignData req)) in
  length (recipients w2) = length (recipients w) + 2 * n /\
  firstn (length (recipients w1)) (recipients w2) = recipients w1 /\
  (forall j,
     j < n ->
     option_map row_data (nth_error (recipients w2) (length (recipients w) + j)) =
     nth_error (csvData (campaignData req)) j /\
     option_map row_data (nth_error (recipients w2) (length (recipients w) + n + j)) =
     nth_error (csvData (campaignData req)) j).
Proof.
  intros Ho Ht Hu Hi Hc. cbv zeta.
  pose proof (accepted_recipients e req w user Ho Ht Hu Hi Hc) as R1.
  pose proof (accepted_recipients e req (final (launch e req w)) user
                Ho Ht Hu Hi Hc) as R2.
  set (rs := map (new_recipient (campaignId req) user
                    (placeholderMappings (campaignData req)))
                 (csvData (campaignData req))) in *.
  assert (L : length rs = length (csvData (campaignData req)))
    by (unfold rs; apply length_map).
  assert (L1 : length (recipients (final (launch e req w))) =
               length (recipients w) + length (csvData (campaignData req))).
  { now rewrite R1, length_app, fresh_rows_length, L. }
  assert (D : forall new_id k j,
             j < length (csvData (campaignData req)) ->
             option_map row_data (nth_error (fresh_rows new_id k rs) j) =
             nth_error (csvData (campaignData req)) j).
  { intros new_id k j Hj.
    destruct (nth_error (csvData (campaignData req)) j) as [row|] eqn:N.
    - rewrite (fresh_rows_nth new_id rs k j
                 (new_recipient (campaignId req) user
                    (placeholderMappings (campaignData req)) row)).
      + reflexivity.
      + unfold rs. now rewrite nth_error_map, N.
    - apply nth_error_None in N. lia. }
  split; [|split].
  - rewrite R2, length_app, fresh_rows_length, L, L1. lia.
  - rewrite R2, firstn_app, Nat.sub_diag, firstn_all. cbn [firstn].
    apply app_nil_r.
  - intros j Hj. split.
    + rewrite R2, nth_error_app1 by lia.
      rewrite R1, nth_error_app2 by lia.
      replace (length (recipients w) + j - length (recipients w)) with j by lia.
      now apply D.
    + rewrite R2, nth_error_app2 by lia.
      replace (length (recipients w) + length (csvData (campaignData req)) + j -
               length (recipients (final (launch e req w)))) with j by lia.
      now apply D.
Qed.

(* ================================================================== *)
(** * Further properties of the background run *)
(* ================================================================== *)

Lemma update_other_campaigns cid p w :
  other_campaigns cid (store_update_campaign cid p w) = other_campaigns cid w /\
  map c_id (campaigns (store_update_campaign cid p w)) = map c_id (campaigns w).
Proof.
  unfold other_campaigns. cbn [campaigns store_update_campaign].
  induction (campaigns w) as [|c l [IH1 IH2]]; [split; reflexivity|].
  cbn [map filter].
  destruct (str_eqb (c_id c) cid) eqn:E.
  - cbn [patch_campaign c_id]. rewrite E. cbn [negb]. split; [exact IH1|].
    now rewrite IH2.
  - rewrite E. cbn [negb]. split; [now rewrite IH1|now rewrite IH2].
Qed.

Lemma send_loop_other_campaigns e cid t m cfg rs : forall n c w,
  other_campaigns cid (final (send_loop e cid t m cfg n rs c w)) =
    other_campaigns cid w /\
  map c_id (campaigns (final (send_loop e cid t m cfg n rs c w))) =
    map c_id (campaigns w).
Proof.
  induction rs as [|r rs IH]; intros n c w; [split; reflexivity|].
  rewrite send_loop_cons. cbv zeta. rewrite final_triple.
  destruct (IH (S n) (result (loop_body e cid t m cfg n r c w))
               (final (loop_body e cid t m cfg n r c w))) as [I1 I2].
  rewrite I1, I2. clear I1 I2.
  rewrite loop_body_eq, final_triple.
  destruct (result (attempt e t m cfg n r c w)) as [s1 f1].
  rewrite checkpoint_eq.
  destruct ((s1 + f1) mod 10 =? 0); rewrite final_triple.
  - destruct (update_other_campaigns cid (progress s1 f1)
                (final (attempt e t m cfg n r c w))) as [U1 U2].
    rewrite U1, U2. unfold other_campaigns.
    now rewrite attempt_campaigns.
  - unfold other_campaigns. now rewrite attempt_campaigns.
Qed.

Lemma background_other_campaigns e cid t m cfg rs w :
  other_campaigns cid (final (sendEmailsInBackground e cid t rs m cfg w)) =
    other_campaigns cid w /\
  map c_id (campaigns (final (sendEmailsInBackground e cid t rs m cfg w))) =
    map c_id (campaigns w).
Proof.
  rewrite sendEmailsInBackground_eq. cbv zeta. rewrite final_triple.
  match goal with
  | |- context [store_update_campaign cid ?p ?w1] =>
      destruct (update_other_campaigns cid p w1) as [U1 U2]
  end.
  rewrite U1, U2. apply send_loop_other_campaigns.
Qed.

Lemma insert_keeps_campaigns new_id rs w :
  campaigns (store_insert_recipients new_id rs w) = campaigns w.
Proof. reflexivity. Qed.

(** X5: a launch writes to its own campaign only.  Whatever the request
    and the answers of the collaborators, the campaign rows with another id
    are in the store afterwards exactly as before, in the same order, and
    no campaign row is added, removed or given another id. *)
Theorem launch_keeps_other_campaigns e req w :
  other_campaigns (campaignId req) (final (launch e req w)) =
    other_campaigns (campaignId req) w /\
  map c_id (campaigns (final (launch e req w))) = map c_id (campaigns w).
Proof.
  rewrite launch_eq. cbv zeta.
  unfold handler.
  destruct (is_options req); [unfold ret; triples; split; reflexivity|].
  destruct (negb _); [unfold ret; triples; split; reflexivity|].
  destruct (getUser e _) as [user|]; [|unfold ret; triples; split; reflexivity].
  unfold bind, insert_recipients, activate_campaign, ret.
  destruct (recipientsError e); [triples; split; reflexivity|].
  destruct (campaignUpdateError e); triples; [split; reflexivity|].
  match goal with
  | |- context [sendEmailsInBackground e ?c ?t ?rs ?m ?cfg ?w1] =>
      destruct (background_other_campaigns e c t m cfg rs w1) as [B1 B2]
  end.
  rewrite B1, B2.
  match goal with
  | |- context [store_update_campaign ?c ?p ?w1] =>
      destruct (update_other_campaigns c p w1) as [U1 U2]
  end.
  rewrite U1, U2. split; reflexivity.
Qed.

Lemma background_marks e cid t m cfg rs w :
  recipient_marks (trace (sendEmailsInBackground e cid t rs m cfg w)) =
  marks_from e t m cfg 0 rs.
Proof.
  rewrite sendEmailsInBackground_eq. cbv zeta.
  rewrite trace_triple, recipient_marks_app, send_loop_marks.
  cbn [recipient_marks]. apply app_nil_r.
Qed.

(** X6: one status update per recipient.  The run issues exactly one
    recipient update per recipient, in input order; the update for the
    recipient at position [j] selects by that recipient's id and writes
    [sent], or [failed] with the message of the error, according to the
    answer of the mail sender for that recipient; it is the same under any
    other mail sender that gives the same answer for that recipient. *)
Theorem status_updates_follow_answers e cid t m cfg rs w :
  recipient_marks (trace (sendEmailsInBackground e cid t rs m cfg w)) =
    marks_from e t m cfg 0 rs /\
  length (recipient_marks (trace (sendEmailsInBackground e cid t rs m cfg w))) =
    length rs /\
  (forall j r,
     nth_error rs j = Some r ->
     nth_error (recipient_marks (trace (sendEmailsInBackground e cid t rs m cfg w))) j =
     Some (match invoke_send_email e j (compose_email t m cfg r) with
           | None => (id r, Some sent, None)
           | Some message => (id r, Some failed, Some message)
           end)) /\
  (forall e' w' j r,
     nth_error rs j = Some r ->
     invoke_send_email e' j (compose_email t m cfg r) =
     invoke_send_email e j (compose_email t m cfg r) ->
     nth_error (recipient_marks (trace (sendEmailsInBackground e' cid t rs m cfg w'))) j =
     nth_error (recipient_marks (trace (sendEmailsInBackground e cid t rs m cfg w))) j).
Proof.
  assert (M : forall e0 w0,
             recipient_marks (trace (sendEmailsInBackground e0 cid t rs m cfg w0)) =
             marks_from e0 t m cfg 0 rs).
  { intros e0 w0. apply background_marks. }
  split; [apply M|]. split.
  - rewrite M. clear M. generalize 0.
    induction rs as [|r rs IH]; intros n; [reflexivity|].
    cbn [marks_from length]. now rewrite IH.
  - split.
    + intros j r H. rewrite M, (marks_from_nth e t m cfg rs 0 j r H).
      reflexivity.
    + intros e' w' j r H E.
      rewrite !M, !(marks_from_nth _ t m cfg rs 0 j r H).
      unfold mark_of. cbn [Nat.add]. now rewrite E.
Qed.

(** The counters, the delays and the clock of the loop, by the answers of
    the mail sender. *)
Lemma send_loop_outcomes e cid t m cfg rs : forall n s f w,
  let a := answers e t m cfg n rs in
  let ok := length (filter succeeded a) in
  let ko := length (filter (fun x => negb (succeeded x)) a) in
  result (send_loop e cid t m cfg n rs (s, f) w) = (s + ok, f + ko) /\
  filter is_delay (trace (send_loop e cid t m cfg n rs (s, f) w)) =
    repeat (Delay 1000) ok /\
  clock (final (send_loop e cid t m cfg n rs (s, f) w)) = clock w + 1000 * ok.
Proof.
  induction rs as [|r rs IH]; intros n s f w; cbv zeta.
  - cbn [answers filter length repeat send_loop]. unfold ret. triples.
    repeat split; try (f_equal; lia); lia.
  - rewrite send_loop_cons. cbv zeta. triples.
    rewrite filter_app, loop_body_delays.
    cbn [answers filter].
    assert (Hc : clock (final (loop_body e cid t m cfg n r (s, f) w)) =
                 clock w +
                 (if succeeded (invoke_send_email e n (compose_email t m cfg r))
                  then 1000 else 0)).
    { rewrite loop_body_eq, final_triple, attempt_eq.
      destruct (invoke_send_email e n (compose_email t m cfg r)); triples;
        rewrite checkpoint_eq;
        match goal with |- context [if ?b then _ else _] => destruct b end;
        triples; cbn; lia. }
    assert (Hr : result (loop_body e cid t m cfg n r (s, f) w) =
                 if succeeded (invoke_send_email e n (compose_email t m cfg r))
                 then (s + 1, f) else (s, f + 1)).
    { rewrite loop_body_eq, result_triple, attempt_counts.
      now destruct (invoke_send_email e n (compose_email t m cfg r)). }
    rewrite Hr.
    destruct (invoke_send_email e n (compose_email t m cfg r)) eqn:A;
      cbn [succeeded negb length] in *.
    + destruct (IH (S n) s (f + 1)
                   (final (loop_body e cid t m cfg n r (s, f) w)))
        as (R & D & C).
      cbv zeta in R, D, C. rewrite R, D, C, Hc.
      repeat split; try (f_equal; lia); lia.
    + destruct (IH (S n) (s + 1) f
                   (final (loop_body e cid t m cfg n r (s, f) w)))
        as (R & D & C).
      cbv zeta in R, D, C. rewrite R, D, C, Hc.
      repeat split; try (f_equal; lia); lia.
Qed.


(** The delays, the clock and the final write of a run, by the answers of
    the mail sender. *)
Lemma background_outcomes e cid t m cfg rs w :
  let a := answers e t m cfg 0 rs in
  let ok := length (filter succeeded a) in
  let ko := length (filter (fun x => negb (succeeded x)) a) in
  filter is_delay (trace (sendEmailsInBackground e cid t rs m cfg w)) =
    repeat (Delay 1000) ok /\
  exists tr,
    trace (sendEmailsInBackground e cid t rs m cfg w) =
    tr ++ [UpdateCampaign cid (final_update true ok ko (clock w + 1000 * ok))].
Proof.
  cbv zeta.
  destruct (send_loop_outcomes e cid t m cfg rs 0 0 0 w) as (R & D & C).
  cbv zeta in R, D, C. cbn [Nat.add] in R.
  rewrite sendEmailsInBackground_eq. cbv zeta. rewrite trace_triple.
  split.
  - rewrite filter_app, D. cbn [filter is_delay]. apply app_nil_r.
  - eexists. f_equal. f_equal. f_equal.
    pose proof (send_loop_sum e cid t m cfg rs 0 0 0 w) as Sum.
    rewrite R in *. cbn [fst snd] in *. rewrite C.
    cbn [Nat.add] in Sum. rewrite Sum, Nat.eqb_refl. reflexivity.
Qed.


(** X8: the counters count the outcomes.  When the loop is over
    [sentCount] is the number of recipients whose send succeeded and
    [failedCount] the number of those whose send failed, and the last
    event of the run writes exactly these two numbers to the campaign, with
    status [completed] and the completion time. *)
Theorem counters_count_outcomes e cid t m cfg rs w :
  let a := answers e t m cfg 0 rs in
  let ok := length (filter succeeded a) in
  let ko := length (filter (fun x => negb (succeeded x)) a) in
  result (send_loop e cid t m cfg 0 rs (0, 0) w) = (ok, ko) /\
  exists tr,
    trace (sendEmailsInBackground e cid t rs m cfg w) =
    tr ++ [UpdateCampaign cid (final_update true ok ko (clock w + 1000 * ok))].
Proof.
  cbv zeta.
  destruct (send_loop_outcomes e cid t m cfg rs 0 0 0 w) as (R & _ & C).
  cbv zeta in R, C. cbn [Nat.add] in R. split; [exact R|].
  rewrite sendEmailsInBackground_eq. cbv zeta. rewrite trace_triple.
  eexists. f_equal. f_equal. f_equal.
  pose proof (send_loop_sum e cid t m cfg rs 0 0 0 w) as Sum.
  rewrite R in *. cbn [fst snd] in *. rewrite C.
  cbn [Nat.add] in Sum. rewrite Sum, Nat.eqb_refl. reflexivity.
Qed.

Lemma div10_succ c :
  (c + 1) / 10 = c / 10 + (if (c + 1) mod 10 =? 0 then 1 else 0).
Proof.
  pose proof (Nat.div_mod_eq c 10) as E1.
  pose proof (Nat.div_mod_eq (c + 1) 10) as E2.
  pose proof (Nat.mod_upper_bound c 10) as B1.
  pose proof (Nat.mod_upper_bound (c + 1) 10) as B2.
  destruct ((c + 1) mod 10 =? 0) eqn:Z.
  - apply Nat.eqb_eq in Z. lia.
  - apply Nat.eqb_neq in Z. lia.
Qed.

Lemma send_loop_write_count e cid t m cfg rs : forall n s f w,
  length (campaign_writes (trace (send_loop e cid t m cfg n rs (s, f) w))) +
  (s + f) / 10 = (s + f + length rs) / 10.
Proof.
  induction rs as [|r rs IH]; intros n s f w.
  - cbn [send_loop length]. unfold ret. rewrite trace_triple, Nat.add_0_r.
    reflexivity.
  - rewrite send_loop_cons. cbv zeta. rewrite trace_triple.
    destruct (loop_body_cases e cid t m cfg n r s f w)
      as (s1 & f1 & E & Hc & Ht).
    rewrite E, Ht, !campaign_writes_app, !length_app, attempt_campaign_writes.
    pose proof (IH (S n) s1 f1 (final (loop_body e cid t m cfg n r (s, f) w)))
      as I.
    assert (S1 : s1 + f1 = s + f + 1) by (destruct Hc as [[-> ->]|[-> ->]]; lia).
    rewrite S1 in *. pose proof (div10_succ (s + f)) as D.
    cbn [length] in *.
    destruct ((s + f + 1) mod 10 =? 0); cbn [campaign_writes length] in *;
      replace (s + f + S (length rs)) with (s + f + 1 + length rs) by lia; lia.
Qed.

(** X9: the number of campaign writes.  Whatever the outcomes of the
    sends, a run over [n] recipients writes to the campaign [n / 10] times
    during the loop and once at the end. *)
Theorem campaign_write_count e cid t m cfg rs w :
  length (campaign_writes (trace (send_loop e cid t m cfg 0 rs (0, 0) w))) =
    length rs / 10 /\
  length (campaign_writes (trace (sendEmailsInBackground e cid t rs m cfg w))) =
    length rs / 10 + 1.
Proof.
  pose proof (send_loop_write_count e cid t m cfg rs 0 0 0 w) as H.
  cbn [Nat.add] in H. change (0 / 10) with 0 in H. rewrite Nat.add_0_r in H.
  split; [exact H|].
  rewrite sendEmailsInBackground_eq. cbv zeta.
  rewrite trace_triple, campaign_writes_app, length_app, H. reflexivity.
Qed.

(** X10: what a run writes to the campaign.  Every campaign write of a run
    is addressed to the campaign of the run and leaves the total alone; the
    writes of the loop touch neither the status nor the completion time,
    and the final write sets the status [completed]: no run writes
    [paused], [active] or [draft]. *)
Theorem run_writes_completed_only e cid t m cfg rs w i p :
  In (UpdateCampaign i p) (trace (sendEmailsInBackground e cid t rs m cfg w)) ->
  i = cid /\
  set_total_recipients p = None /\
  ((set_status p = None /\ set_completed_at p = None) \/
   (set_status p = Some completed /\ exists at_, set_completed_at p = Some (Some at_))).
Proof.
  rewrite sendEmailsInBackground_eq. cbv zeta. rewrite trace_triple.
  intros H. apply in_app_or in H. destruct H as [H|H].
  - apply send_loop_campaign_writes in H.
    destruct H as (s' & f' & -> & -> & _). cbn. auto.
  - destruct H as [H|[]]. inversion H; subst i p.
    rewrite send_loop_sum. cbn [Nat.add]. rewrite Nat.eqb_refl. cbn.
    repeat split. right. eauto.
Qed.

(* ================================================================== *)
(** * Further properties of the placeholder substitution *)
(* ================================================================== *)

Lemma includes_false_find p : forall s, includes p s = false -> find p s = None.
Proof.
  induction s as [|c s IH]; intros H; cbn [includes find] in *;
    apply orb_false_iff in H; destruct H as [H1 H2]; rewrite H1.
  - reflexivity.
  - now rewrite (IH H2).
Qed.

Lemma includes_false_nonempty p s : includes p s = false -> p <> [].
Proof. intros H ->. destruct s; discriminate. Qed.

Lemma replace_absent p text value :
  includes p text = false ->
  RegExp.replace_placeholder p text value = text.
Proof.
  intros H. rewrite replace_placeholder_eq.
  pose proof (scan_find p value (includes_false_nonempty p text H) text []) as F.
  now rewrite (includes_false_find p text H) in F.
Qed.

Lemma fold_absent recipient_data : forall entries s b,
  (forall k col, In (k, col) entries -> includes k s = false) ->
  fst (fold_left (substitute recipient_data) entries (s, b)) = s /\
  snd (fold_left (substitute recipient_data) entries (b, s)) = s.
Proof.
  induction entries as [|[k col] entries IH]; intros s b H; [split; reflexivity|].
  cbn [fold_left substitute fst snd].
  rewrite (replace_absent k s _ (H k col (or_introl eq_refl))).
  apply IH. intros k' c' Hin. apply (H k' c'). now right.
Qed.

(** X11: text without mapped placeholders.  When no placeholder of the
    mapping occurs in the subject of the template, the personalized subject
    is the subject of the template, whatever the recipient's values and
    whatever happens to the body; likewise for the body. *)
Theorem absent_placeholders_leave_text t mappings recipient_data :
  ((forall k col, In (k, col) mappings -> includes k (subject t) = false) ->
   fst (personalize t mappings recipient_data) = subject t) /\
  ((forall k col, In (k, col) mappings -> includes k (body t) = false) ->
   snd (personalize t mappings recipient_data) = body t).
Proof.
  unfold personalize. split; intros H.
  - now apply (proj1 (fold_absent recipient_data mappings (subject t) (body t) H)).
  - now apply (proj2 (fold_absent recipient_data mappings (body t) (subject t) H)).
Qed.

Lemma find_some_split p : forall s i,
  find p s = Some i ->
  s = firstn i s ++ p ++ skipn (i + length p) s.
Proof.
  induction s as [|c s IH]; intros i H; cbn [find] in H.
  - destruct (startsWith p []) eqn:E; [|discriminate].
    inversion H; subst i. now apply startsWith_inv.
  - destruct (startsWith p (c :: s)) eqn:E.
    + inversion H; subst i. now apply startsWith_inv.
    + destruct (find p s) as [j|] eqn:F; [|discriminate].
      inversion H; subst i. cbn [firstn skipn Nat.add app].
      f_equal. now apply IH.
Qed.

(** The value [$&] puts every match back. *)
Lemma scan_ampersand p :
  p <> [] ->
  forall n rest before,
    length rest <= n ->
    RegExp.replace_scan p (js "$&") before 0 rest = rest.
Proof.
  intros Hp. induction n as [|n IH]; intros rest before Hn.
  - destruct rest; [|simpl in Hn; lia]. now apply scan_nil.
  - pose proof (scan_find p (js "$&") Hp rest before) as H.
    destruct (find p rest) as [i|] eqn:F; [|exact H].
    rewrite H. cbn [js lit list_ascii_of_string RegExp.getSubstitution].
    cbn. rewrite app_nil_r, IH.
    + symmetry. now apply find_some_split.
    + rewrite length_skipn.
      assert (length rest <> 0).
      { pose proof (find_some_nonempty p rest i Hp F).
        destruct rest; simpl; congruence. }
      assert (length p <> 0) by (destruct p; simpl; congruence).
      lia.
Qed.

(** The scan depends on the value through its expansion only. *)
Lemma scan_ext p v1 v2 :
  (forall before after,
     RegExp.getSubstitution p before after v1 =
     RegExp.getSubstitution p before after v2) ->
  forall rest before skip,
    RegExp.replace_scan p v1 before skip rest =
    RegExp.replace_scan p v2 before skip rest.
Proof.
  intros H. induction rest as [|c rest IH]; intros before skip.
  - destruct skip; cbn [RegExp.replace_scan]; [|reflexivity].
    now rewrite H.
  - destruct skip as [|k]; cbn [RegExp.replace_scan].
    + rewrite H. destruct (startsWith p (c :: rest)).
      * f_equal. destruct p; now rewrite IH.
      * now rewrite IH.
    + apply IH.
Qed.

(** X12: values are replacement patterns.  A recipient whose value for the
    mapped column is the two characters [$&] gets the text with every
    occurrence of the placeholder left in place, and the values [$$] and
    [$] give the same text: [replace] expands the value before inserting
    it. *)
Theorem dollar_values_expand recipient_data p col s1 s2 :
  p <> [] ->
  (get recipient_data col = Some (js "$&") ->
   substitute recipient_data (s1, s2) (p, col) = (s1, s2)) /\
  RegExp.replace_placeholder p s1 (js "$$") =
  RegExp.replace_placeholder p s1 (js "$").
Proof.
  intros Hp. split.
  - intros E. cbn [substitute fst snd]. rewrite E.
    change (or_str (Some (js "$&")) []) with (js "$&").
    rewrite !replace_placeholder_eq.
    rewrite (scan_ampersand p Hp (length s1) s1 [] (le_n _)).
    now rewrite (scan_ampersand p Hp (length s2) s2 [] (le_n _)).
  - rewrite !replace_placeholder_eq. apply scan_ext. reflexivity.
Qed.

Lemma scan_empty_pattern value :
  ~ In RegExp.dollar value ->
  forall text before,
    RegExp.replace_scan [] value before 0 text =
    value ++ flat_map (fun c => c :: value) text.
Proof.
  intros Hv. induction text as [|c text IH]; intros before.
  - cbn [RegExp.replace_scan startsWith flat_map].
    rewrite getSubstitution_plain by assumption. reflexivity.
  - cbn [RegExp.replace_scan startsWith flat_map].
    rewrite getSubstitution_plain by assumption. now rewrite IH.
Qed.

(** X13: the empty placeholder, on ASCII text.  A mapping entry whose
    placeholder is the empty string matches at every position: when the
    subject and the body consist of code units below 128, the recipient's
    value (free of [$]) is inserted in front of every code unit of the
    subject and of the body, and at their end.  (For text with other
    characters the positions are those between the code units of the
    JavaScript string, which the elements of the list do not give.) *)
Theorem empty_placeholder_inserts_everywhere recipient_data col s1 s2 :
  let value := or_str (get recipient_data col) [] in
  ascii_text s1 = true -> ascii_text s2 = true ->
  ~ In RegExp.dollar value ->
  substitute recipient_data (s1, s2) ([], col) =
  (value ++ flat_map (fun c => c :: value) s1,
   value ++ flat_map (fun c => c :: value) s2).
Proof.
  cbv zeta. intros _ _ Hv. cbn [substitute fst snd].
  rewrite !replace_placeholder_eq.
  now rewrite !(scan_empty_pattern _ Hv).
Qed.

(* ================================================================== *)
(** * Properties of [send-email] and of its use by the run *)
(* ================================================================== *)

(** X14: when [send-email] refuses.  If the Resend client cannot be built,
    if the API key is missing or empty, or if the request carries no sender
    configuration, the function answers 500 and does not call Resend. *)
Theorem send_email_refuses ms d :
  (resend_constructor ms <> None \/ truthy (RESEND_API_KEY ms) = false \/
   smtp d = None) ->
  mail_status (fst (send_email_handler ms false d)) = 500 /\
  snd (send_email_handler ms false d) = [] /\
  exists message, mail_body (fst (send_email_handler ms false d)) = mail_error message.
Proof.
  intros H. unfold send_email_handler.
  destruct (resend_constructor ms) as [msg|].
  { cbn. eauto. }
  destruct (truthy (RESEND_API_KEY ms)); cbn [negb].
  2:{ cbn. eauto. }
  destruct (smtp d).
  - destruct H as [H|[H|H]]; congruence.
  - cbn. eauto.
Qed.

(** X15: what [send-email] sends.  With a client, a key and a sender
    configuration, the function calls Resend exactly once, from
    ["name <address>"] of the configuration, to the one address of the
    request, with the subject and the body of the request unchanged; it
    answers 200 exactly when Resend answers with data, and when Resend
    answers with an error the message of the 500 response is that error's
    message behind ["Failed to send email: "]. *)
Theorem send_email_outcome ms d cfg :
  resend_constructor ms = None ->
  truthy (RESEND_API_KEY ms) = true ->
  smtp d = Some cfg ->
  let mail := {| mail_from := senderName cfg ++ js " <" ++ senderEmail cfg ++ js ">";
                 mail_to := [to d];
                 mail_subject := e_subject d;
                 mail_html := html d |} in
  let r := fst (send_email_handler ms false d) in
  snd (send_email_handler ms false d) = [mail] /\
  (mail_status r = 200 <-> exists message_id, resend_send ms mail = resend_data message_id) /\
  (mail_status r = 200 \/ mail_status r = 500) /\
  (forall message,
     resend_send ms mail = resend_error message ->
     mail_body r = mail_error (js "Failed to send email: " ++ message)).
Proof.
  intros Hc Hk Hs. cbv zeta. unfold send_email_handler.
  rewrite Hc, Hk, Hs. cbn [negb]. unfold sender_header.
  destruct (resend_send ms _) as [mid|msg|msg]; cbn [fst snd mail_status mail_body].
  - repeat split; eauto. discriminate.
  - repeat split; auto; try discriminate.
    + intros [mid H]. discriminate.
    + intros message E. now inversion E.
  - repeat split; auto; try discriminate.
    intros [mid H]. discriminate.
Qed.

Lemma invoke_refused ms http_error d :
  (resend_constructor ms <> None \/ truthy (RESEND_API_KEY ms) = false \/
   smtp d = None) ->
  invoke_send_email_function ms http_error d = Some http_error.
Proof.
  intros H. unfold invoke_send_email_function.
  destruct (send_email_refuses ms d H) as (E & _). now rewrite E.
Qed.

Lemma compose_email_smtp t m cfg r : smtp (compose_email t m cfg r) = cfg.
Proof. unfold compose_email. now destruct (personalize t m (data r)). Qed.

Lemma answers_all_fail e t m cfg message : forall rs n,
  (forall k r, invoke_send_email e k (compose_email t m cfg r) = Some message) ->
  answers e t m cfg n rs = repeat (Some message) (length rs).
Proof.
  induction rs as [|r rs IH]; intros n H; [reflexivity|].
  cbn [answers length repeat]. now rewrite H, IH.
Qed.

Lemma marks_all_fail e t m cfg message : forall rs n,
  (forall k r, invoke_send_email e k (compose_email t m cfg r) = Some message) ->
  marks_from e t m cfg n rs =
  map (fun r => (id r, Some failed, Some message)) rs.
Proof.
  induction rs as [|r rs IH]; intros n H; [reflexivity|].
  cbn [marks_from map]. unfold mark_of. now rewrite H, IH.
Qed.

Lemma filter_repeat_all {A} (P : A -> bool) (x : A) n :
  P x = true -> filter P (repeat x n) = repeat x n.
Proof.
  intros H. induction n as [|n IH]; [reflexivity|].
  cbn [repeat filter]. now rewrite H, IH.
Qed.

Lemma filter_repeat_none {A} (P : A -> bool) (x : A) n :
  P x = false -> filter P (repeat x n) = [].
Proof.
  intros H. induction n as [|n IH]; [reflexivity|].
  cbn [repeat filter]. now rewrite H, IH.
Qed.

(** X16: a run without sender configuration, with [send-email] as the
    mail sender.  [send-email] is invoked for every recipient, refuses each
    time without calling Resend, and the run marks every recipient [failed]
    with the message of the client library's error; no delay is taken, and
    the run ends with the write of [completed], no recipient sent and all of
    them failed. *)
Theorem missing_config_fails_every_recipient ms http_error e cid t m rs w :
  let e' := with_send_email ms http_error e in
  let run := sendEmailsInBackground e' cid t rs m None w in
  length (mail_sends (trace run)) = length rs /\
  (forall d, In d (mail_sends (trace run)) ->
             snd (send_email_handler ms false d) = []) /\
  recipient_marks (trace run) =
    map (fun r => (id r, Some failed, Some http_error)) rs /\
  filter is_delay (trace run) = [] /\
  exists tr,
    trace run =
    tr ++ [UpdateCampaign cid (final_update true 0 (length rs) (clock w))].
Proof.
  cbv zeta.
  assert (F : forall k r,
             invoke_send_email (with_send_email ms http_error e) k
               (compose_email t m None r) = Some http_error).
  { intros k r. cbn [invoke_send_email with_send_email].
    apply invoke_refused. right. right. apply compose_email_smtp. }
  split; [now rewrite background_mail_sends, length_map|].
  split.
  { intros d Hd. rewrite background_mail_sends in Hd.
    apply in_map_iff in Hd. destruct Hd as (r & <- & _).
    apply send_email_refuses. right. right. apply compose_email_smtp. }
  split.
  { rewrite background_marks. now apply marks_all_fail. }
  destruct (background_outcomes (with_send_email ms http_error e)
              cid t m None rs w) as (D & tr & T).
  cbv zeta in D, T.
  rewrite (answers_all_fail _ t m None http_error rs 0 F) in D, T.
  rewrite filter_repeat_none in D, T by reflexivity.
  rewrite filter_repeat_all in T by reflexivity.
  rewrite repeat_length in T. cbn [length repeat] in D, T.
  rewrite Nat.mul_0_r, Nat.add_0_r in T.
  split; [exact D|]. now exists tr.
Qed.

(* ================================================================== *)
(** * Properties of [send-test-email] *)
(* ================================================================== *)

(** X17: the test email shows the template as written.  With a template
    and a sender configuration, [send-test-email] invokes [send-email]
    exactly once, for the test address and with the configuration of the
    request; the subject is the subject of the template behind ["[TEST] "],
    the HTML body contains the subject and the body of the template as they
    are, so a placeholder of the template is still a placeholder in the
    test email; the answer is 200 exactly when the invocation reports no
    error, and otherwise 500 with the message of that error. *)
Theorem test_email_shows_raw_template sv req t cfg :
  test_options req = false ->
  fetch_template sv (test_campaignId req) = Some t ->
  test_smtpConfig req = Some cfg ->
  let out := send_test_email sv req in
  exists d,
    snd out = [d] /\
    to d = testEmail req /\ smtp d = Some cfg /\
    e_subject d = js "[TEST] " ++ subject t /\
    includes (subject t) (html d) = true /\
    includes (body t) (html d) = true /\
    (forall p, includes p (subject t) = true -> includes p (e_subject d) = true) /\
    (forall p, includes p (body t) = true -> includes p (html d) = true) /\
    (test_status (fst out) = 200 <-> test_invoke sv d = None) /\
    (forall message,
       test_invoke sv d = Some message ->
       fst out = {| test_status := 500; test_body := test_error message |}).
Proof.
  intros Ho Hf Hc. cbv zeta. unfold send_test_email. rewrite Ho, Hf, Hc.
  exists (test_email t (testEmail req) cfg).
  assert (Hb : includes (body t) (html (test_email t (testEmail req) cfg)) = true).
  { cbn [html test_email]. unfold test_html.
    do 3 apply includes_app_r. apply includes_here. }
  assert (Hs : includes (subject t) (html (test_email t (testEmail req) cfg)) = true).
  { cbn [html test_email]. unfold test_html.
    apply includes_app_r. apply includes_here. }
  split; [now destruct (test_invoke sv _)|].
  do 3 (split; [reflexivity|]).
  split; [exact Hs|]. split; [exact Hb|].
  split; [intros p Hp; cbn [e_subject test_email]; now apply includes_app_r|].
  split.
  { intros p Hp. cbn [html test_email]. unfold test_html.
    do 3 apply includes_app_r. now apply includes_app_l. }
  destruct (test_invoke sv (test_email t (testEmail req) cfg)) as [msg|];
    cbn [fst test_status]; split.
  - split; discriminate.
  - intros message E. now inversion E.
  - split; reflexivity.
  - discriminate.
Qed.

(** X18: when [send-test-email] sends nothing.  If the template of the
    campaign cannot be fetched the answer is 500 with
    ["Failed to fetch template"]; if the request has no sender
    configuration the answer is 500 as well; in both cases [send-email] is
    not invoked. *)
Theorem test_email_refuses sv req :
  test_options req = false ->
  (fetch_template sv (test_campaignId req) = None ->
   send_test_email sv req =
   ({| test_status := 500;
       test_body := test_error (js "Failed to fetch template") |}, [])) /\
  (test_smtpConfig req = None ->
   test_status (fst (send_test_email sv req)) = 500 /\
   snd (send_test_email sv req) = []).
Proof.
  intros Ho. unfold send_test_email. rewrite Ho. split.
  - intros ->. reflexivity.
  - intros ->. destruct (fetch_template sv (test_campaignId req)); split; reflexivity.
Qed.

(* ================================================================== *)
(** * Properties of the preview *)
(* ================================================================== *)



Lemma get_in_nodup : forall (o : obj) k v,
  NoDup (map fst o) -> In (k, v) o -> get o k = Some v.
Proof.
  induction o as [|[k0 v0] o IH]; intros k v Hnd Hin; [contradiction|].
  cbn [map fst] in Hnd. inversion Hnd as [|x l Hnot Hnd']; subst.
  cbn [get]. destruct Hin as [E|Hin].
  - inversion E; subst. now rewrite str_eqb_refl.
  - destruct (str_eqb k0 k) eqn:Eq.
    + apply str_eqb_eq in Eq. subst k0. exfalso. apply Hnot.
      apply in_map_iff. now exists (k, v).
    + now apply IH.
Qed.

Lemma preview_fold_agrees mappings row :
  NoDup (map fst mappings) ->
  forall entries acc,
    (forall k col, In (k, col) entries ->
                   In (k, col) mappings /\ col <> [] /\ truthy (get row col) = true) ->
    fold_left (preview_substitute mappings row) (map fst entries) acc =
    fold_left (substitute row) entries acc.
Proof.
  intros Hnd. induction entries as [|[k col] entries IH]; intros acc H; [reflexivity|].
  cbn [map fst fold_left].
  destruct (H k col (or_introl eq_refl)) as (Hin & Hcol & Hv).
  assert (E : preview_substitute mappings row acc k = substitute row acc (k, col)).
  { unfold preview_substitute, substitute.
    rewrite (get_in_nodup mappings k col Hnd Hin).
    destruct col as [|c col]; [congruence|]. cbn [truthy or_str andb].
    now rewrite Hv. }
  rewrite E. apply IH. intros k' c' Hin'. apply H. now right.
Qed.

(** X20: when the preview shows what is sent.  If the placeholders of the
    template are the placeholders of the mapping, in the order of its
    entries, and every entry maps to a column that has a value in the
    sample row, the preview reports no unmapped placeholder and its subject
    and body are those the dispatcher renders for that row. *)
Theorem preview_agrees_with_dispatch t csv mappings index row :
  nth_error csv index = Some row ->
  wt_placeholders t = Some (map fst mappings) ->
  NoDup (map fst mappings) ->
  (forall k col, In (k, col) mappings -> col <> [] /\ truthy (get row col) = true) ->
  let sent := personalize {| subject := wt_subject t; body := wt_body t |}
                mappings row in
  generatePreview (Some t) (Some csv) (Some mappings) index =
  preview_set [] (fst sent) (snd sent) (Some row).
Proof.
  intros Hrow Hpl Hnd Hall. cbv zeta. cbn [generatePreview]. rewrite Hpl, Hrow.
  rewrite (preview_fold_agrees mappings row Hnd mappings).
  2:{ intros k col Hin. destruct (Hall k col Hin). auto. }
  unfold personalize. cbn [subject body].
  destruct (fold_left (substitute row) mappings (wt_subject t, wt_body t)) as [s b].
  f_equal. unfold unmapped.
  assert (F : forall l, (forall k, In k l -> truthy (get mappings k) = true) ->
                        filter (fun p => negb (truthy (get mappings p))) l = []).
  { induction l as [|x l IH]; intros Hl; [reflexivity|].
    cbn [filter]. rewrite (Hl x (or_introl eq_refl)). cbn [negb].
    apply IH. intros k Hk. apply Hl. now right. }
  apply F. intros k Hk. apply in_map_iff in Hk. destruct Hk as ([k' col] & <- & Hin).
  cbn [fst]. rewrite (get_in_nodup mappings k' col Hnd Hin).
  destruct (Hall k' col Hin) as [Hc _]. destruct col; [congruence|reflexivity].
Qed.

(* ================================================================== *)
(** * Properties of the placeholder detection *)
(* ================================================================== *)







(* ================================================================== *)
(** * Properties of the launch from the wizard *)
(* ================================================================== *)

(** A launch that is not answered with 200 was answered with 500; it sent
    nothing and left the campaign rows as they were. *)
Lemma rejected_launch e req w :
  is_options req = false ->
  http_status (result (launch e req w)) <> 200 ->
  http_status (result (launch e req w)) = 500 /\
  campaigns (final (launch e req w)) = campaigns w /\
  mail_sends (trace (launch e req w)) = [].
Proof.
  intros Ho. rewrite launch_eq. cbv zeta. unfold handler. rewrite Ho.
  destruct (negb _); [unfold ret; triples; intros _; repeat split|].
  destruct (getUser e _) as [user|]; [|unfold ret; triples; intros _; repeat split].
  unfold bind, insert_recipients, activate_campaign, ret.
  destruct (recipientsError e); [triples; intros _; repeat split|].
  destruct (campaignUpdateError e); triples; [intros _; repeat split|].
  intros H. now contradiction H.
Qed.

(** X22: a launch from the wizard that is rejected.  The wizard sets the
    campaign [active] before it invokes the function.  When the function
    does not answer 200 the wizard shows the error and stays on the step;
    nothing was sent; and the campaign rows are as the wizard's own update
    left them: the rows of the campaign that the user may update are
    [active], not back in their former status. *)
Theorem rejected_launch_leaves_active c e cid cd w :
  campaignError c = None ->
  http_status (result (launch e (launch_request c cid cd) (client_activate c cid w))) <> 200 ->
  let out := sendCampaign c e cid cd w in
  fst (fst out) = [Toast (js "Error launching campaign") (invoke_error_message c) true] /\
  mail_sends (snd out) = [] /\
  campaigns (snd (fst out)) = campaigns (client_activate c cid w) /\
  (forall r, In r (campaigns w) -> c_id r = cid -> may_update c r = true ->
             exists r', In r' (campaigns (snd (fst out))) /\
                        c_id r' = cid /\ c_status r' = active /\
                        total_recipients r' = total_recipients r /\
                        sent_count r' = sent_count r /\
                        failed_count r' = failed_count r).
Proof.
  intros Hc Hr. cbv zeta.
  destruct (rejected_launch e (launch_request c cid cd) (client_activate c cid w)
              eq_refl Hr) as (H500 & Hcamp & Hsends).
  unfold sendCampaign. rewrite Hc. cbv zeta. rewrite H500.
  cbn [Nat.leb andb fst snd mail_sends].
  split; [reflexivity|]. split; [exact Hsends|]. split; [exact Hcamp|].
  intros r Hin Hid Hm. rewrite Hcamp. cbn [campaigns client_activate].
  exists (patch_campaign set_active r). split.
  - apply in_map_iff. exists r. split; [|exact Hin].
    now rewrite Hid, str_eqb_refl, Hm.
  - cbn. auto.
Qed.

(** When its own update of the campaign fails, the wizard shows that error
    and neither changes the store nor invokes the function.  Otherwise it
    moves to the next step exactly when the function answers 200. *)
Lemma wizard_launch_steps c e cid cd w :
  (forall message,
     campaignError c = Some message ->
     sendCampaign c e cid cd w =
     ([Toast (js "Error launching campaign") message true], w,
      [UpdateCampaign cid set_active])) /\
  (campaignError c = None ->
   (In NextStep (fst (fst (sendCampaign c e cid cd w))) <->
    http_status (result (launch e (launch_request c cid cd)
                           (client_activate c cid w))) = 200)).
Proof.
  split.
  - intros message E. unfold sendCampaign. now rewrite E.
  - intros E. unfold sendCampaign. rewrite E. cbv zeta.
    destruct (Nat.eq_dec
                (http_status (result (launch e (launch_request c cid cd)
                                        (client_activate c cid w)))) 200) as [H|H].
    + rewrite H. cbn. tauto.
    + destruct (rejected_launch e (launch_request c cid cd)
                  (client_activate c cid w) eq_refl H) as (H500 & _).
      rewrite H500. cbn. split; [intros [F|[]]; discriminate|discriminate].
Qed.
(* ================================================================== *)
(** * Saving the CSV and the mappings *)
(* ================================================================== *)

Lemma unmapped_nil (mappings : JS.obj) (placeholders : list JS.str) :
  unmapped mappings placeholders = [] ->
  forall p, In p placeholders -> truthy (JS.get mappings p) = true.
Proof.
  unfold unmapped. induction placeholders as [|q qs IH]; intros E p Hp.
  - destruct Hp.
  - cbn [filter] in E.
    destruct (truthy (JS.get mappings q)) eqn:T; cbn [negb] in E;
      [|discriminate].
    destruct Hp as [<-|Hp]; [exact T | exact (IH E p Hp)].
Qed.

(** X25: [saveMappings] moves the wizard on only after a complete save:
    when it calls [onNext], the CSV has rows, every detected placeholder
    is mapped to a non-empty header, none of the three checked calls
    failed, the data handed to the wizard is the CSV with these mappings,
    and the table ends with one row per mapping, in the mappings' order. *)
Theorem next_step_only_after_save
        (sv : upload_service) (campaignId : JS.str) (user : option JS.str)
        (csvData : list JS.obj) (csvHeaders placeholders : list JS.str)
        (mappings : JS.obj) (table : list mapping_row) :
  let out := saveMappings sv campaignId user csvData csvHeaders placeholders
               mappings table in
  In StepNext (fst (fst out)) ->
  csvData <> [] /\
  (forall p, In p placeholders -> truthy (JS.get mappings p) = true) /\
  uploadError sv = None /\ csvCampaignError sv = None /\
  mappingError sv = None /\
  In (DataChange csvData csvHeaders mappings) (fst (fst out)) /\
  exists kept,
    snd (fst out) = kept ++ mapping_data campaignId user mappings /\
    map mr_placeholder (mapping_data campaignId user mappings) =
      map fst mappings /\
    map mr_csv_header (mapping_data campaignId user mappings) =
      map snd mappings.
Proof.
  cbv zeta. unfold saveMappings.
  destruct csvData as [|row rows].
  { cbn. intros [H|[]]. discriminate. }
  destruct (unmapped mappings placeholders) eqn:U.
  2:{ cbn. intros [H|[]]. discriminate. }
  destruct (uploadError sv).
  { cbn. intros [H|[]]. discriminate. }
  destruct (csvCampaignError sv).
  { cbn. intros [H|[]]. discriminate. }
  destruct (mappingError sv).
  { cbn. intros [H|[]]. discriminate. }
  cbn [fst snd]. intros _.
  split; [discriminate|].
  split; [exact (unmapped_nil _ _ U)|].
  repeat (split; [reflexivity|]).
  split; [left; reflexivity|].
  eexists. split; [reflexivity|].
  unfold mapping_data. rewrite !map_map. cbn. split; reflexivity.
Qed.

(** X26: with no CSV rows, or with a detected placeholder that has no
    (or an empty) mapping, [saveMappings] makes no call to the storage or
    the store, leaves the table alone and shows one error toast. *)
Theorem incomplete_input_makes_no_call
        (sv : upload_service) (campaignId : JS.str) (user : option JS.str)
        (csvData : list JS.obj) (csvHeaders placeholders : list JS.str)
        (mappings : JS.obj) (table : list mapping_row) :
  csvData = [] \/
  (exists p, In p placeholders /\ truthy (JS.get mappings p) = false) ->
  let out := saveMappings sv campaignId user csvData csvHeaders placeholders
               mappings table in
  snd out = [] /\ snd (fst out) = table /\
  exists title description, fst (fst out) = [StepToast title description true].
Proof.
  intros H. cbv zeta. unfold saveMappings.
  destruct csvData as [|row rows].
  { cbn. repeat split. eauto. }
  destruct H as [H|(p & Hp & T)]; [discriminate|].
  destruct (unmapped mappings placeholders) eqn:U.
  { rewrite (unmapped_nil _ _ U p Hp) in T. discriminate. }
  cbn. repeat split. eauto.
Qed.

Lemma delete_mappings_spec (campaignId u : JS.str) (table : list mapping_row)
      (r : mapping_row) :
  In r (delete_mappings campaignId (Some u) table) <->
  In r table /\
  ~ (mr_campaign_id r = campaignId /\ mr_user_id r = Some u).
Proof.
  unfold delete_mappings. rewrite filter_In.
  split; intros [Hin H]; (split; [exact Hin|]).
  - intros [E1 E2]. rewrite E1, E2 in H.
    rewrite !str_eqb_refl in H. discriminate.
  - destruct (str_eqb (mr_campaign_id r) campaignId) eqn:E1; [|reflexivity].
    destruct (mr_user_id r) as [u'|] eqn:E2; [|reflexivity].
    destruct (str_eqb u' u) eqn:E3; [|reflexivity].
    exfalso. apply H.
    apply str_eqb_eq in E1. apply str_eqb_eq in E3. subst. split; reflexivity.
Qed.

(** X27: when the upload and the campaign update succeed and the store
    carries out the delete, a refused insert leaves the user's campaign
    with no mappings at all: the rows saved before are gone, no new one is
    stored, and the wizard stays on the step with the store's message. *)
Theorem refused_insert_loses_saved_mappings
        (sv : upload_service) (campaignId u message : JS.str)
        (csvData : list JS.obj) (csvHeaders placeholders : list JS.str)
        (mappings : JS.obj) (table : list mapping_row) :
  csvData <> [] ->
  (forall p, In p placeholders -> truthy (JS.get mappings p) = true) ->
  uploadError sv = None -> csvCampaignError sv = None ->
  delete_applies sv = true ->
  mappingError sv = Some message ->
  let out := saveMappings sv campaignId (Some u) csvData csvHeaders
               placeholders mappings table in
  fst (fst out) = [save_error message] /\
  (forall r, In r (snd (fst out)) ->
             ~ (mr_campaign_id r = campaignId /\ mr_user_id r = Some u)) /\
  (forall r, In r (snd (fst out)) -> In r table) /\
  In (DeleteMappings campaignId (Some u)) (snd out).
Proof.
  intros N M U C D I. cbv zeta. unfold saveMappings.
  destruct csvData as [|row rows]; [contradiction|].
  destruct (unmapped mappings placeholders) as [|p ps] eqn:E.
  2:{ exfalso.
      assert (Hin : In p (unmapped mappings placeholders))
        by (rewrite E; left; reflexivity).
      unfold unmapped in Hin. apply filter_In in Hin. destruct Hin as [Hp T].
      rewrite (M p Hp) in T. discriminate. }
  rewrite U, C, D, I. cbn [fst snd].
  split; [reflexivity|].
  split; [intros r Hr; apply delete_mappings_spec in Hr; tauto|].
  split; [intros r Hr; apply delete_mappings_spec in Hr; tauto|].
  cbn. tauto.
Qed.


(* ================================================================== *)
(** * The further statements at sample data *)
(* ================================================================== *)

(** A launch without [authorization] header. *)
Lemma launch_rejects_bad_token_witness :
  is_options (Fixture.with_header None) = false /\
  truthy (bearer_token (Fixture.with_header None)) = false /\
  result (launch (Sample.service Sample.always_ok) (Fixture.with_header None) Sample.w0) =
    failure "Authorization token required" /\
  trace (launch (Sample.service Sample.always_ok) (Fixture.with_header None) Sample.w0) = [] /\
  final (launch (Sample.service Sample.always_ok) (Fixture.with_header None) Sample.w0) =
    Sample.w0.
Proof.
  split; [reflexivity|]. split; [reflexivity|].
  exact (launch_rejects_bad_token (Sample.service Sample.always_ok)
           (Fixture.with_header None) Sample.w0 eq_refl (or_introl eq_refl)).
Defined.

(** A launch on a store that refuses the insert, and one on a store that
    refuses the campaign update. *)
Lemma launch_store_failures_witness :
  truthy (bearer_token Fixture.launch_of_rows) = true /\
  getUser Fixture.insert_fails (or_str (bearer_token Fixture.launch_of_rows) []) =
    Some (js "u1") /\
  recipientsError Fixture.insert_fails = true /\
  recipientsError Fixture.update_fails = false /\
  campaignUpdateError Fixture.update_fails = true /\
  final (launch Fixture.insert_fails Fixture.launch_of_rows Sample.w0) = Sample.w0 /\
  result (launch Fixture.update_fails Fixture.launch_of_rows Sample.w0) =
    failure "Failed to update campaign" /\
  length (recipients (final (launch Fixture.update_fails Fixture.launch_of_rows Sample.w0))) = 3 /\
  campaigns (final (launch Fixture.update_fails Fixture.launch_of_rows Sample.w0)) =
    campaigns Sample.w0.
Proof.
  destruct (launch_store_failures Fixture.insert_fails Fixture.launch_of_rows
              Sample.w0 (js "u1") eq_refl eq_refl eq_refl) as [I _].
  destruct (launch_store_failures Fixture.update_fails Fixture.launch_of_rows
              Sample.w0 (js "u1") eq_refl eq_refl eq_refl) as [_ U].
  destruct (I eq_refl) as (_ & I2 & _).
  destruct (U eq_refl eq_refl) as (U1 & U2 & U3 & _).
  do 5 (split; [reflexivity|]).
  split; [exact I2|]. split; [exact U1|]. split; [exact U2|exact U3].
Defined.

(** An accepted launch of three rows. *)
Lemma accepted_launch_rows_witness :
  let e := Sample.service Sample.always_ok in
  let out := launch e Fixture.launch_of_rows Sample.w0 in
  getUser e (or_str (bearer_token Fixture.launch_of_rows) []) = Some (js "u1") /\
  recipientsError e = false /\ campaignUpdateError e = false /\
  nth_error (csvData (campaignData Fixture.launch_of_rows)) 1 =
    Some [(js "email", js "bob@x.org"); (js "firstName", js "Bob")] /\
  result out = {| http_status := 200; payload := started (js "c1") 3 |} /\
  length (recipients (final out)) = 3 /\
  option_map row_email (nth_error (recipients (final out)) 1) =
    Some (Some (js "bob@x.org")) /\
  option_map row_status (nth_error (recipients (final out)) 1) = Some pending.
Proof.
  cbv zeta.
  destruct (accepted_launch_rows (Sample.service Sample.always_ok)
              Fixture.launch_of_rows Sample.w0 (js "u1")
              eq_refl eq_refl eq_refl eq_refl eq_refl) as (A1 & _ & A3 & A4).
  pose proof (A4 1 [(js "email", js "bob@x.org"); (js "firstName", js "Bob")] eq_refl)
    as A.
  do 4 (split; [reflexivity|]).
  split; [exact A1|]. split; [exact A3|].
  split; [exact (f_equal (option_map row_email) A)
         |exact (f_equal (option_map row_status) A)].
Defined.

Lemma launch_sends_in_order_witness :
  let e := Sample.service Sample.always_ok in
  getUser e (or_str (bearer_token Fixture.launch_of_rows) []) = Some (js "u1") /\
  map to (mail_sends (trace (launch e Fixture.launch_of_rows Sample.w0))) =
    [Some (js "ana@x.org"); Some (js "bob@x.org"); Some (js "eve@x.org")] /\
  map e_subject (mail_sends (trace (launch e Fixture.launch_of_rows Sample.w0))) =
    [js "Hi Ana"; js "Hi Bob"; js "Hi Eve"].
Proof.
  cbv zeta.
  pose proof (launch_sends_in_order (Sample.service Sample.always_ok)
                Fixture.launch_of_rows Sample.w0 (js "u1")
                eq_refl eq_refl eq_refl eq_refl eq_refl) as S.
  split; [reflexivity|].
  split; [exact (f_equal (map to) S)|exact (f_equal (map e_subject) S)].
Defined.

(** Three recipients, the send to the second one fails; under a mail
    sender that fails every send the second recipient is marked the same. *)
Lemma status_updates_follow_answers_witness :
  let e := Sample.service (Sample.fail_at 1) in
  let e' := Sample.service Sample.always_fail in
  let r := new_recipient (js "c1") (js "u1") Sample.mappings
             [(js "email", js "bob@x.org"); (js "firstName", js "Bob")] in
  let marks x := recipient_marks
                   (trace (sendEmailsInBackground x (js "c1") Sample.greeting
                             Sample.three Sample.mappings (Some Sample.sender)
                             Sample.w0)) in
  nth_error Sample.three 1 = Some r /\
  invoke_send_email e' 1
    (compose_email Sample.greeting Sample.mappings (Some Sample.sender) r) =
  invoke_send_email e 1
    (compose_email Sample.greeting Sample.mappings (Some Sample.sender) r) /\
  nth_error (marks e) 1 = Some (None, Some failed, Some (js "boom")) /\
  nth_error (marks e') 1 = nth_error (marks e) 1.
Proof.
  cbv zeta.
  destruct (status_updates_follow_answers (Sample.service (Sample.fail_at 1))
              (js "c1") Sample.greeting Sample.mappings (Some Sample.sender)
              Sample.three Sample.w0) as (_ & _ & N & I).
  split; [reflexivity|]. split; [reflexivity|].
  split; [exact (N 1 _ eq_refl)|].
  exact (I (Sample.service Sample.always_fail) Sample.w0 1 _ eq_refl eq_refl).
Defined.

(** The final write of a run over three recipients. *)
Lemma run_writes_completed_only_witness :
  let run := sendEmailsInBackground (Sample.service (Sample.fail_at 1)) (js "c1")
               Sample.greeting Sample.three Sample.mappings (Some Sample.sender)
               Sample.w0 in
  In (UpdateCampaign (js "c1") (final_update true 2 1 2000)) (trace run) /\
  set_total_recipients (final_update true 2 1 2000) = None /\
  set_status (final_update true 2 1 2000) = Some completed.
Proof.
  cbv zeta.
  assert (H : In (UpdateCampaign (js "c1") (final_update true 2 1 2000))
                 (trace (sendEmailsInBackground (Sample.service (Sample.fail_at 1))
                           (js "c1") Sample.greeting Sample.three Sample.mappings
                           (Some Sample.sender) Sample.w0))).
  { vm_compute. repeat (first [left; reflexivity | right]). }
  destruct (run_writes_completed_only _ _ _ _ _ _ _ _ _ H) as (_ & T & _).
  split; [exact H|]. split; [exact T|reflexivity].
Defined.

(** A template without placeholder. *)
Lemma absent_placeholders_leave_text_witness :
  let t := {| subject := js "Monthly news"; body := js "Nothing to fill in." |} in
  let row := [(js "firstName", js "Ana")] in
  (forall k col, In (k, col) Sample.mappings -> includes k (subject t) = false) /\
  (forall k col, In (k, col) Sample.mappings -> includes k (body t) = false) /\
  personalize t Sample.mappings row = (js "Monthly news", js "Nothing to fill in.").
Proof.
  cbv zeta.
  assert (H1 : forall k col, In (k, col) Sample.mappings ->
                             includes k (js "Monthly news") = false).
  { intros k col [E|[]]. inversion E; subst. reflexivity. }
  assert (H2 : forall k col, In (k, col) Sample.mappings ->
                             includes k (js "Nothing to fill in.") = false).
  { intros k col [E|[]]. inversion E; subst. reflexivity. }
  destruct (absent_placeholders_leave_text
              {| subject := js "Monthly news"; body := js "Nothing to fill in." |}
              Sample.mappings [(js "firstName", js "Ana")]) as [A B].
  split; [exact H1|]. split; [exact H2|].
  rewrite (surjective_pairing (personalize _ _ _)).
  now rewrite (A H1), (B H2).
Defined.

(** A recipient whose first name is [$&]. *)
Lemma dollar_values_expand_witness :
  js "{{name}}" <> [] /\
  get [(js "firstName", js "$&")] (js "firstName") = Some (js "$&") /\
  substitute [(js "firstName", js "$&")] (js "Hi {{name}}", js "Dear {{name}}")
    (js "{{name}}", js "firstName") = (js "Hi {{name}}", js "Dear {{name}}") /\
  RegExp.replace_placeholder (js "{{name}}") (js "Hi {{name}}") (js "$$") =
  RegExp.replace_placeholder (js "{{name}}") (js "Hi {{name}}") (js "$").
Proof.
  assert (Hp : js "{{name}}" <> []) by discriminate.
  destruct (dollar_values_expand [(js "firstName", js "$&")] (js "{{name}}")
              (js "firstName") (js "Hi {{name}}") (js "Dear {{name}}") Hp) as [A B].
  split; [exact Hp|]. split; [reflexivity|]. split; [exact (A eq_refl)|exact B].
Defined.

(** The empty placeholder mapped to a column holding [-]. *)
Lemma empty_placeholder_inserts_everywhere_witness :
  ascii_text (js "abc") = true /\
  ~ In RegExp.dollar (or_str (get [(js "sep", js "-")] (js "sep")) []) /\
  substitute [(js "sep", js "-")] (js "abc", []) ([], js "sep") =
  (js "-a-b-c-", js "-").
Proof.
  assert (H : ~ In RegExp.dollar (or_str (get [(js "sep", js "-")] (js "sep")) [])).
  { intros [F|[]]. discriminate. }
  split; [reflexivity|]. split; [exact H|].
  exact (empty_placeholder_inserts_everywhere [(js "sep", js "-")] (js "sep")
           (js "abc") [] eq_refl eq_refl H).
Defined.

(** A request without sender configuration. *)
Lemma send_email_refuses_witness :
  smtp Fixture.mail_without_config = None /\
  mail_status (fst (send_email_handler Fixture.resend_accepts false
                      Fixture.mail_without_config)) = 500 /\
  snd (send_email_handler Fixture.resend_accepts false Fixture.mail_without_config) = [].
Proof.
  destruct (send_email_refuses Fixture.resend_accepts Fixture.mail_without_config
              (or_intror (or_intror eq_refl))) as (A & B & _).
  split; [reflexivity|]. split; [exact A|exact B].
Defined.

(** A mail that Resend rejects. *)
Lemma send_email_outcome_witness :
  let out := send_email_handler Fixture.resend_rejects false Fixture.mail in
  resend_constructor Fixture.resend_rejects = None /\
  truthy (RESEND_API_KEY Fixture.resend_rejects) = true /\
  smtp Fixture.mail = Some Sample.sender /\
  map mail_from (snd out) = [js "Me <me@x.org>"] /\
  map mail_to (snd out) = [[Some (js "ana@x.org")]] /\
  mail_body (fst out) =
    mail_error (js "Failed to send email: domain not verified").
Proof.
  cbv zeta.
  destruct (send_email_outcome Fixture.resend_rejects Fixture.mail Sample.sender
              eq_refl eq_refl eq_refl) as (A & _ & _ & D).
  do 3 (split; [reflexivity|]).
  split; [exact (f_equal (map mail_from) A)|].
  split; [exact (f_equal (map mail_to) A)|].
  exact (D (js "domain not verified") eq_refl).
Defined.

(** Three recipients, no sender configuration. *)
Lemma missing_config_fails_every_recipient_witness :
  let e' := with_send_email Fixture.resend_accepts Fixture.http_error
              (Sample.service Sample.always_ok) in
  let run := sendEmailsInBackground e' (js "c1") Sample.greeting Sample.three
               Sample.mappings None Sample.w0 in
  let d := compose_email Sample.greeting Sample.mappings None
             (new_recipient (js "c1") (js "u1") Sample.mappings
                [(js "email", js "ana@x.org"); (js "firstName", js "Ana")]) in
  In d (mail_sends (trace run)) /\
  snd (send_email_handler Fixture.resend_accepts false d) = [] /\
  map (fun x => snd (fst x)) (recipient_marks (trace run)) =
    [Some failed; Some failed; Some failed] /\
  filter is_delay (trace run) = [].
Proof.
  cbv zeta.
  destruct (missing_config_fails_every_recipient Fixture.resend_accepts
              Fixture.http_error (Sample.service Sample.always_ok) (js "c1")
              Sample.greeting Sample.mappings Sample.three Sample.w0)
    as (_ & A & M & D & _).
  cbv zeta in A, M, D.
  assert (H : In (compose_email Sample.greeting Sample.mappings None
                    (new_recipient (js "c1") (js "u1") Sample.mappings
                       [(js "email", js "ana@x.org"); (js "firstName", js "Ana")]))
                 (mail_sends
                    (trace (sendEmailsInBackground
                              (with_send_email Fixture.resend_accepts
                                 Fixture.http_error (Sample.service Sample.always_ok))
                              (js "c1") Sample.greeting Sample.three
                              Sample.mappings None Sample.w0)))).
  { vm_compute. left. reflexivity. }
  split; [exact H|]. split; [exact (A _ H)|].
  split; [exact (f_equal (map (fun x => snd (fst x))) M)|exact D].
Defined.

(** The test email of the greeting. *)
Lemma test_email_shows_raw_template_witness :
  let req := Fixture.test_request_for (js "c1") (Some Sample.sender) in
  let out := send_test_email Fixture.test_service_failing req in
  fetch_template Fixture.test_service_failing (js "c1") = Some Sample.greeting /\
  map e_subject (snd out) = [js "[TEST] Hi {{name}}"] /\
  map to (snd out) = [Some (js "me@x.org")] /\
  includes (js "{{name}}") (js "[TEST] Hi {{name}}") = true /\
  fst out = {| test_status := 500; test_body := test_error Fixture.http_error |} /\
  test_status (fst (send_test_email Fixture.test_service_ok req)) = 200.
Proof.
  cbv zeta.
  destruct (test_email_shows_raw_template Fixture.test_service_failing
              (Fixture.test_request_for (js "c1") (Some Sample.sender))
              Sample.greeting Sample.sender eq_refl eq_refl eq_refl)
    as (d & S & T & _ & E & _ & _ & P & _ & _ & F).
  destruct (test_email_shows_raw_template Fixture.test_service_ok
              (Fixture.test_request_for (js "c1") (Some Sample.sender))
              Sample.greeting Sample.sender eq_refl eq_refl eq_refl)
    as (d' & S' & _ & _ & _ & _ & _ & _ & _ & [_ O] & _).
  cbv zeta in S, F, S', O.
  assert (Ed : d = test_email Sample.greeting (Some (js "me@x.org")) Sample.sender).
  { assert (X : [d] = [test_email Sample.greeting (Some (js "me@x.org")) Sample.sender])
      by (rewrite <- S; reflexivity).
    now inversion X. }
  assert (Ed' : d' = test_email Sample.greeting (Some (js "me@x.org")) Sample.sender).
  { assert (X : [d'] = [test_email Sample.greeting (Some (js "me@x.org")) Sample.sender])
      by (rewrite <- S'; reflexivity).
    now inversion X. }
  split; [reflexivity|].
  split; [rewrite S, Ed; reflexivity|].
  split; [rewrite S, Ed; reflexivity|].
  split; [rewrite <- (P (js "{{name}}") eq_refl) at 1; rewrite E; reflexivity|].
  split; [apply F; rewrite Ed; reflexivity|].
  apply O. rewrite Ed'. reflexivity.
Defined.

(** An unknown campaign, and a request without sender configuration. *)
Lemma test_email_refuses_witness :
  fetch_template Fixture.test_service_ok (js "c9") = None /\
  send_test_email Fixture.test_service_ok
    (Fixture.test_request_for (js "c9") (Some Sample.sender)) =
  ({| test_status := 500;
      test_body := test_error (js "Failed to fetch template") |}, []) /\
  test_smtpConfig (Fixture.test_request_for (js "c1") None) = None /\
  test_status (fst (send_test_email Fixture.test_service_ok
                      (Fixture.test_request_for (js "c1") None))) = 500 /\
  snd (send_test_email Fixture.test_service_ok
         (Fixture.test_request_for (js "c1") None)) = [].
Proof.
  destruct (test_email_refuses Fixture.test_service_ok
              (Fixture.test_request_for (js "c9") (Some Sample.sender)) eq_refl)
    as [A _].
  destruct (test_email_refuses Fixture.test_service_ok
              (Fixture.test_request_for (js "c1") None) eq_refl) as [_ B].
  destruct (B eq_refl) as [B1 B2].
  split; [reflexivity|]. split; [exact (A eq_refl)|].
  split; [reflexivity|]. split; [exact B1|exact B2].
Defined.


(** The greeting previewed with the row of Ana. *)
Lemma preview_agrees_with_dispatch_witness :
  let row := [(js "email", js "ana@x.org"); (js "firstName", js "Ana")] in
  nth_error Sample.rows 0 = Some row /\
  NoDup (map fst Sample.mappings) /\
  (forall k col, In (k, col) Sample.mappings ->
                 col <> [] /\ truthy (get row col) = true) /\
  generatePreview (Some Fixture.greeting_only) (Some Sample.rows)
    (Some Sample.mappings) 0 =
  preview_set [] (js "Hi Ana") (js "Dear Ana, welcome.") (Some row).
Proof.
  cbv zeta.
  assert (Hn : NoDup (map fst Sample.mappings)).
  { constructor; [intros []|constructor]. }
  assert (Ha : forall k col, In (k, col) Sample.mappings ->
                 col <> [] /\
                 truthy (get [(js "email", js "ana@x.org"); (js "firstName", js "Ana")]
                             col) = true).
  { intros k col [E|[]]. inversion E; subst. split; [discriminate|reflexivity]. }
  split; [reflexivity|]. split; [exact Hn|]. split; [exact Ha|].
  exact (preview_agrees_with_dispatch Fixture.greeting_only Sample.rows
           Sample.mappings 0 _ eq_refl eq_refl Hn Ha).
Defined.


(** A launch from the wizard with a token the auth service rejects. *)
Lemma rejected_launch_leaves_active_witness :
  let cd := campaignData Fixture.launch_of_rows in
  let e := Sample.service Sample.always_ok in
  let out := sendCampaign Fixture.stale_client e (js "c1") cd Sample.w0 in
  campaignError Fixture.stale_client = None /\
  http_status (result (launch e (launch_request Fixture.stale_client (js "c1") cd)
                         (client_activate Fixture.stale_client (js "c1") Sample.w0)))
    <> 200 /\
  map c_status (campaigns Sample.w0) = [draft] /\
  map c_status (campaigns (snd (fst out))) = [active] /\
  mail_sends (snd out) = [] /\
  fst (fst out) = [Toast (js "Error launching campaign") Fixture.http_error true].
Proof.
  cbv zeta.
  assert (H : http_status
                (result (launch (Sample.service Sample.always_ok)
                           (launch_request Fixture.stale_client (js "c1")
                              (campaignData Fixture.launch_of_rows))
                           (client_activate Fixture.stale_client (js "c1") Sample.w0)))
              <> 200) by discriminate.
  destruct (rejected_launch_leaves_active Fixture.stale_client
              (Sample.service Sample.always_ok) (js "c1")
              (campaignData Fixture.launch_of_rows) Sample.w0 eq_refl H)
    as (T & M & C & _).
  cbv zeta in T, M, C.
  split; [reflexivity|]. split; [exact H|]. split; [reflexivity|].
  split; [exact (f_equal (map c_status) C)|]. split; [exact M|exact T].
Defined.

(** A header with a token the auth service does not know, a header
    without the prefix, and the header [Bearer] alone. *)
Lemma bearer_prefix_stripped_witness :
  let e := Sample.service Sample.always_ok in
  authorization (Fixture.with_header (Some (js "Bearer old"))) =
    Some (js "Bearer " ++ js "old") /\
  js "old" <> [] /\
  getUser e (js "old") = None /\
  bearer_token (Fixture.with_header (Some (js "Bearer old"))) = Some (js "old") /\
  result (launch e (Fixture.with_header (Some (js "Bearer old"))) Sample.w0) =
    failure "Invalid authorization token" /\
  includes (js "Bearer ") (js "tok") = false /\
  bearer_token (Fixture.with_header (Some (js "tok"))) = Some (js "tok") /\
  getUser e (js "Bearer") = None /\
  result (launch e (Fixture.with_header (Some (js "Bearer"))) Sample.w0) =
    failure "Invalid authorization token".
Proof.
  cbv zeta.
  assert (Hn : js "old" <> []) by discriminate.
  destruct (bearer_prefix_stripped (Sample.service Sample.always_ok)
              (Fixture.with_header (Some (js "Bearer old"))) Sample.w0 (js "old")
              eq_refl Hn eq_refl) as (B & I & R & P).
  split; [reflexivity|]. split; [exact Hn|]. split; [reflexivity|].
  split; [exact B|]. split; [exact (I eq_refl)|].
  split; [reflexivity|].
  split; [exact (R (Fixture.with_header (Some (js "tok"))) (js "tok")
                   eq_refl eq_refl)|].
  split; [reflexivity|].
  exact (P (Fixture.with_header (Some (js "Bearer"))) Sample.w0
           eq_refl eq_refl eq_refl).
Defined.

(** The same three rows launched twice. *)
Lemma relaunch_appends_rows_again_witness :
  let e := Sample.service Sample.always_ok in
  let w1 := final (launch e Fixture.launch_of_rows Sample.w0) in
  let w2 := final (launch e Fixture.launch_of_rows w1) in
  getUser e (or_str (bearer_token Fixture.launch_of_rows) []) = Some (js "u1") /\
  1 < length (csvData (campaignData Fixture.launch_of_rows)) /\
  length (recipients w2) = 6 /\
  option_map row_data (nth_error (recipients w2) 1) = Some
    [(js "email", js "bob@x.org"); (js "firstName", js "Bob")] /\
  option_map row_data (nth_error (recipients w2) 4) = Some
    [(js "email", js "bob@x.org"); (js "firstName", js "Bob")].
Proof.
  cbv zeta.
  assert (H1 : 1 < length (csvData (campaignData Fixture.launch_of_rows)))
    by (apply le_S, le_n).
  destruct (relaunch_appends_rows_again (Sample.service Sample.always_ok)
              Fixture.launch_of_rows Sample.w0 (js "u1")
              eq_refl eq_refl eq_refl eq_refl eq_refl) as (L & _ & D).
  destruct (D 1 H1) as [D1 D2].
  split; [reflexivity|]. split; [exact H1|]. split; [exact L|].
  split; [exact D1|exact D2].
Defined.

(** A complete save of the three sample rows over the mappings saved
    earlier: the other campaign's row stays, the new row follows. *)
Lemma next_step_only_after_save_witness :
  let out := saveMappings Fixture.upload_accepts (js "c1") (Some (js "u1"))
               Sample.rows [js "email"; js "firstName"] [js "{{name}}"]
               Sample.mappings Fixture.saved_mappings in
  In StepNext (fst (fst out)) /\
  Sample.rows <> [] /\
  truthy (JS.get Sample.mappings (js "{{name}}")) = true /\
  map mr_csv_header (snd (fst out)) = [js "city"; js "firstName"].
Proof.
  cbv zeta.
  assert (H : In StepNext
                (fst (fst (saveMappings Fixture.upload_accepts (js "c1")
                             (Some (js "u1")) Sample.rows
                             [js "email"; js "firstName"] [js "{{name}}"]
                             Sample.mappings Fixture.saved_mappings))))
    by (right; right; left; reflexivity).
  destruct (next_step_only_after_save Fixture.upload_accepts (js "c1")
              (Some (js "u1")) Sample.rows [js "email"; js "firstName"]
              [js "{{name}}"] Sample.mappings Fixture.saved_mappings H)
    as (N & M & _).
  split; [exact H|]. split; [exact N|].
  split; [exact (M (js "{{name}}") (or_introl eq_refl))|reflexivity].
Defined.

(** A placeholder without a mapping stops the save before any call. *)
Lemma incomplete_input_makes_no_call_witness :
  let out := saveMappings Fixture.upload_accepts (js "c1") (Some (js "u1"))
               Sample.rows [js "email"; js "firstName"]
               [js "{{name}}"; js "{{city}}"]
               Sample.mappings Fixture.saved_mappings in
  truthy (JS.get Sample.mappings (js "{{city}}")) = false /\
  snd out = [] /\ snd (fst out) = Fixture.saved_mappings.
Proof.
  cbv zeta.
  destruct (incomplete_input_makes_no_call Fixture.upload_accepts (js "c1")
              (Some (js "u1")) Sample.rows [js "email"; js "firstName"]
              [js "{{name}}"; js "{{city}}"] Sample.mappings
              Fixture.saved_mappings
              (or_intror (ex_intro _ (js "{{city}}")
                            (conj (or_intror (or_introl eq_refl)) eq_refl))))
    as (C & T & _).
  split; [reflexivity|]. split; [exact C|exact T].
Defined.

(** The insert is refused after the delete: the mapping of [{{name}}]
    saved earlier for campaign [c1] is no longer in the table. *)
Lemma refused_insert_loses_saved_mappings_witness :
  let out := saveMappings Fixture.insert_of_mappings_fails (js "c1")
               (Some (js "u1")) Sample.rows [js "email"; js "firstName"]
               [js "{{name}}"] Sample.mappings Fixture.saved_mappings in
  map mr_campaign_id Fixture.saved_mappings = [js "c1"; js "c2"] /\
  fst (fst out) = [save_error (js "insert failed")] /\
  map mr_campaign_id (snd (fst out)) = [js "c2"] /\
  (forall r, In r (snd (fst out)) ->
             ~ (mr_campaign_id r = js "c1" /\ mr_user_id r = Some (js "u1"))).
Proof.
  cbv zeta.
  assert (N : Sample.rows <> []) by discriminate.
  assert (M : forall p, In p [js "{{name}}"] ->
                        truthy (JS.get Sample.mappings p) = true)
    by (intros p [<-|[]]; reflexivity).
  destruct (refused_insert_loses_saved_mappings Fixture.insert_of_mappings_fails
              (js "c1") (js "u1") (js "insert failed") Sample.rows
              [js "email"; js "firstName"] [js "{{name}}"] Sample.mappings
              Fixture.saved_mappings N M eq_refl eq_refl eq_refl eq_refl)
    as (E & G & _).
  split; [reflexivity|]. split; [exact E|]. split; [reflexivity|exact G].
Defined.
